(** * sendata: the file-transfer client built on a WebTorrent client

    A shallow embedding of the [Client] class (an [EventEmitter] wrapping a
    WebTorrent client and a SocketIO socket) and of the callbacks it
    registers.  The class is event driven: every callback becomes a function
    on an explicit [World], and one [step] function dispatches a stimulus
    (a method call, a socket message, a torrent event, a timer tick) to the
    callbacks registered for it.  What the class does to the outside
    ([this.emit], [socket.emit], [debug], calls into WebTorrent and the timer
    API) is appended, in program order, to the world's [trace]. *)

From Stdlib Require Import QArith ZArith String List Lia.
From stdpp Require Import base option list.
Import ListNotations.

#[local] Open Scope string_scope.
#[local] Open Scope list_scope.
#[local] Open Scope nat_scope.

(** ** Values exchanged with the outside *)

(** A JS [number] that the class only ever copies (progress fractions, byte
    counters): a rational.  No arithmetic is done on them. *)
Definition number : Type := Q.

(** [err: string | Error | undefined]: the defined cases. *)
Inductive JsErr : Type :=
| ErrString (s : string)
| ErrObject (message : string).

(** JS truthiness of an optional error, as tested by [if (err)]: [undefined]
    and the empty string are falsy, every [Error] object is truthy. *)
Definition truthy (err : option JsErr) : bool :=
  match err with
  | None => false
  | Some (ErrString s) => negb (String.eqb s "")
  | Some (ErrObject _) => true
  end.

(** A message body of type [any] received over the socket. *)
#[local] Unset Elimination Schemes.
Inductive JsValue : Type :=
| JsUndefined
| JsNull
| JsBool (b : bool)
| JsNumber (n : number)
| JsString (s : string)
| JsArray (items : list JsValue)
| JsObject (fields : list (string * JsValue)).
#[local] Set Elimination Schemes.

(** [formatBytes] comes from [./util]; its results stay symbolic:
    [FormatBytes n] is the string [formatBytes(n)] and [FormatBytesPerS n]
    the string [formatBytes(n) + "/s"]. *)
Inductive Formatted : Type :=
| FormatBytes (n : number)
| FormatBytesPerS (n : number).

(** ** The WebTorrent surface the class reads and drives *)

Module File.
(** [torrent.files[i]]: the fields read by the class, and the download
    intent that [file.select()] / [file.deselect()] switch. *)
Record t : Type := mk {
  name : string;
  progress : number;
  selected : bool
}.

(** Modelled from the spec: [fileHandle.select()] of the swarm handle
    surface, which lives in the WebTorrent library; it sets the file's
    download intent. *)
Definition select (f : t) : t := mk (name f) (progress f) true.

(** Modelled from the spec: [fileHandle.deselect()] of the swarm handle
    surface, which lives in the WebTorrent library; it clears the file's
    download intent. *)
Definition deselect (f : t) : t := mk (name f) (progress f) false.
End File.

Module Torrent.
(** A [WebTorrent.Torrent]: the fields the class reads. [pieces] is
    [torrent.pieces.length]; [timeRemaining] is [None] for [Infinity]. *)
Record t : Type := mk {
  magnetURI : string;
  files : list File.t;
  pieces : nat;
  progress : number;
  downloadSpeed : number;
  downloaded : number;
  uploadSpeed : number;
  uploaded : number;
  timeRemaining : option number
}.

Definition set_files (fs : list File.t) (h : t) : t :=
  mk (magnetURI h) fs (pieces h) (progress h) (downloadSpeed h)
     (downloaded h) (uploadSpeed h) (uploaded h) (timeRemaining h).

(** The handle just returned by [client.add(magnetURI, ...)]: no
    metadata yet, so no files and no pieces. *)
Definition added (uri : string) : t :=
  mk uri [] 0 0%Q 0%Q 0%Q 0%Q 0%Q None.

(** The handle returned by [client.seed(files, ...)], with one entry per
    file handed in, all wanted. *)
Definition seeded (names : list string) : t :=
  mk "" (map (fun n => File.mk n 1%Q true) names) 0 1%Q 0%Q 0%Q 0%Q 0%Q None.

(** Modelled from the spec: [torrent.deselect(start, end, priority)] of
    the swarm handle surface, which lives in the WebTorrent library.  On
    the whole piece range [0 .. pieces.length - 1] it is the spec's
    [handle.deselectAll()]: every file loses its download intent.  A
    call on another range does not name the whole-torrent selection and
    leaves the per-file intents alone. *)
Definition deselect (start end_ priority : Z) (h : t) : t :=
  if ((start =? 0)%Z && (end_ =? Z.of_nat (pieces h) - 1)%Z)%bool
  then set_files (map File.deselect (files h)) h
  else h.

(** [torrent.files[i].select()] and [.deselect()] seen from the torrent. *)
Definition select_file (i : nat) (h : t) : t :=
  set_files (alter File.select i (files h)) h.
Definition deselect_file (i : nat) (h : t) : t :=
  set_files (alter File.deselect i (files h)) h.

(** The per-file selected/deselected state. *)
Definition selection (h : t) : list bool := map File.selected (files h).

(** Modelled from the spec: when the library emits [done], which it does
    on reaching Complete (all selected files finished): the handle shows
    the whole at 1.0 and every selected file at 1.0. *)
Definition complete (h : t) : bool :=
  Qeq_bool (progress h) 1
  && forallb (fun f => implb (File.selected f) (Qeq_bool (File.progress f) 1))
             (files h).
End Torrent.

(** ** What the class emits *)

Module Info.
(** Payload of the [download] event. *)
Record download : Type := mkDownload {
  downloadSpeed : Formatted;
  downloaded : Formatted;
  progress : number;
  progressFiles : list number;
  timeRemaining : option number
}.

(** Payload of the outbound [progressUpdate] socket message;
    [progressFiles] is [None] while the closure variable is [undefined]. *)
Record update : Type := mkUpdate {
  u_progress : number;
  u_progressFiles : option (list number);
  u_timeRemaining : option number
}.
End Info.

Module Event.
(** [this.emit(name, payload)]: the events listed in the class comment. *)
Inductive t : Type :=
| error (err : JsErr)
| upload (uploadSpeed uploaded : Formatted)
| download (info : Info.download)
| progressUpdate (info : JsValue)
| fileDownloadComplete (index : nat) (url : string)
| seeding
| downloading
| downloadComplete
| torrentDestroyed
| clientDestroyed.
End Event.

Module Msg.
(** [this.socket.emit(name, payload)]. *)
Inductive t : Type :=
| fileReady (magnetURI : string)
| progressUpdate (info : Info.update)
| downloadComplete.
End Msg.

(** [debug(...)] lines: the template and the values spliced into it. *)
Inductive DebugMsg : Type :=
| DbgClientError (err : JsErr)
| DbgTorrentDone
| DbgGotLength (got expected : nat)
| DbgIgnoredSelection
| DbgImplementedSelection
| DbgObtainingFile (name : string) (err : JsErr)
| DbgUndefinedUrl (name : string)
| DbgBeginning
| DbgComplete
| DbgTorrentError (err : JsErr)
| DbgTorrentWarning (err : JsErr).

(** Calls into WebTorrent and the timer API; [tid] is the torrent the call
    is made on. *)
Inductive Call : Type :=
| ClientSeed (names : list string)
| ClientAdd (magnetURI : string)
| ClientDestroy
| TorrentDeselect (tid : nat) (start end_ priority : Z)
| FileSelect (tid i : nat)
| FileDeselect (tid i : nat)
| GetBlobURL (tid i : nat)
| TorrentDestroy (tid : nat)
| SetInterval (id : nat)
| ClearInterval (id : option nat).

Inductive Output : Type :=
| Emit (e : Event.t)
| SocketEmit (m : Msg.t)
| Debug (d : DebugMsg)
| Calls (c : Call).

(** ** The state of one client *)

(** Events of a torrent the class listens to. *)
Inductive TorrentEvent : Type :=
| metadata
| ready
| done
| error (err : JsErr)
| warning (err : JsErr)
| upload (bytes : number).

(** The name under which a listener is registered with [torrent.on]. *)
Inductive EventName : Type :=
| OnMetadata | OnReady | OnDone | OnError | OnWarning | OnUpload.

#[global] Instance EventName_eq_dec : EqDecision EventName.
Proof. solve_decision. Defined.

Definition event_name (ev : TorrentEvent) : EventName :=
  match ev with
  | metadata => OnMetadata
  | ready => OnReady
  | done => OnDone
  | error _ => OnError
  | warning _ => OnWarning
  | upload _ => OnUpload
  end.

(** How a torrent came to the client: [client.seed] in [sendFiles], or
    [client.add] in [addTorrent]. *)
Inductive Role : Type := Seeder | Downloader.

(** One torrent of the client, with what the class attached to it: the
    listeners registered with [torrent.on] (the class registers at most one
    kind of callback per event name, so the names suffice), and, for a
    torrent made by [addTorrent], the variables of that call's closure. *)
Record Session : Type := mkSession {
  torrent : Torrent.t;
  role : Role;
  destroyed : bool;
  listeners : list EventName;
  downloadInfoInterval : option nat;
  progressFiles : option (list number);
  (** [getBlobURL] callbacks handed to the library: index [i] and the
      [file.name] captured by the callback. *)
  blobCallbacks : list (nat * string)
}.

Definition set_torrent (h : Torrent.t) (s : Session) : Session :=
  mkSession h (role s) (destroyed s) (listeners s) (downloadInfoInterval s)
            (progressFiles s) (blobCallbacks s).
Definition set_destroyed (b : bool) (s : Session) : Session :=
  mkSession (torrent s) (role s) b (listeners s) (downloadInfoInterval s)
            (progressFiles s) (blobCallbacks s).
Definition add_listener (n : EventName) (s : Session) : Session :=
  mkSession (torrent s) (role s) (destroyed s) (listeners s ++ [n])
            (downloadInfoInterval s) (progressFiles s) (blobCallbacks s).
Definition set_downloadInfoInterval (id : option nat) (s : Session) : Session :=
  mkSession (torrent s) (role s) (destroyed s) (listeners s) id
            (progressFiles s) (blobCallbacks s).
Definition set_progressFiles (pf : option (list number)) (s : Session) : Session :=
  mkSession (torrent s) (role s) (destroyed s) (listeners s)
            (downloadInfoInterval s) pf (blobCallbacks s).
Definition add_blobCallback (c : nat * string) (s : Session) : Session :=
  mkSession (torrent s) (role s) (destroyed s) (listeners s)
            (downloadInfoInterval s) (progressFiles s) (blobCallbacks s ++ [c]).

Definition listenerCount (n : EventName) (s : Session) : nat :=
  length (filter (fun m => m = n) (listeners s)).

(** Listeners registered with [socket.on]; the [torrentDone] listener
    closes over the torrent of the [seed] callback that registered it. *)
Inductive SocketListener : Type :=
| SockAddTorrent
| SockProgressUpdate
| SockTorrentDone (tid : nat).

(** The client, its torrents and its timers.  [sessions] holds every
    torrent ever made, at a stable index; [client.torrents] is the
    sub-list of those not destroyed.  [timers] are the intervals set and
    not cleared, each with the torrent whose closure it runs.
    [clientDestroyed] is the WebTorrent client's [destroyed] flag. *)
Record World : Type := mkWorld {
  sessions : list Session;
  fileNames : option (list string);
  timers : list (nat * nat);
  nextTimer : nat;
  socketListeners : list SocketListener;
  clientDestroyed : bool;
  trace : list Output
}.

Definition set_sessions (ss : list Session) (w : World) : World :=
  mkWorld ss (fileNames w) (timers w) (nextTimer w) (socketListeners w)
          (clientDestroyed w) (trace w).
Definition set_fileNames (ns : option (list string)) (w : World) : World :=
  mkWorld (sessions w) ns (timers w) (nextTimer w) (socketListeners w)
          (clientDestroyed w) (trace w).
Definition set_timers (ts : list (nat * nat)) (w : World) : World :=
  mkWorld (sessions w) (fileNames w) ts (nextTimer w) (socketListeners w)
          (clientDestroyed w) (trace w).
Definition set_nextTimer (n : nat) (w : World) : World :=
  mkWorld (sessions w) (fileNames w) (timers w) n (socketListeners w)
          (clientDestroyed w) (trace w).
Definition add_socketListener (l : SocketListener) (w : World) : World :=
  mkWorld (sessions w) (fileNames w) (timers w) (nextTimer w)
          (socketListeners w ++ [l]) (clientDestroyed w) (trace w).
Definition set_clientDestroyed (b : bool) (w : World) : World :=
  mkWorld (sessions w) (fileNames w) (timers w) (nextTimer w)
          (socketListeners w) b (trace w).
Definition out (o : Output) (w : World) : World :=
  mkWorld (sessions w) (fileNames w) (timers w) (nextTimer w)
          (socketListeners w) (clientDestroyed w) (trace w ++ [o]).

Definition emit (e : Event.t) : World -> World := out (Emit e).
Definition socket_emit (m : Msg.t) : World -> World := out (SocketEmit m).
Definition debug (d : DebugMsg) : World -> World := out (Debug d).
Definition call (c : Call) : World -> World := out (Calls c).

(** Update of the session at index [tid]. *)
Definition with_session (tid : nat) (f : Session -> Session) (w : World) : World :=
  set_sessions (alter f tid (sessions w)) w.

(** [this.client.torrents]: the torrents not destroyed, in the order they
    were added, each with its index in [sessions]. *)
Fixpoint live_from (i : nat) (ss : list Session) : list (nat * Session) :=
  match ss with
  | [] => []
  | s :: ss' =>
      if destroyed s then live_from (S i) ss' else (i, s) :: live_from (S i) ss'
  end.
Definition client_torrents (w : World) : list (nat * Session) :=
  live_from 0 (sessions w).

(** The result of a method that may throw. *)
Inductive Result (A : Type) : Type :=
| Ok (a : A)
| Throws (e : JsErr).
Arguments Ok {A} a.
Arguments Throws {A} e.

(** ** [selectFiles] *)

Definition on_torrent (tid : nat) (f : Torrent.t -> Torrent.t) : World -> World :=
  with_session tid (fun s => set_torrent (f (torrent s)) s).

(** [torrent.deselect(start, end, priority)], [file.select()] and
    [file.deselect()]: the call is recorded and the handle changes. *)
Definition torrent_deselect (tid : nat) (start end_ priority : Z) (w : World) : World :=
  call (TorrentDeselect tid start end_ priority)
       (on_torrent tid (Torrent.deselect start end_ priority) w).
Definition file_select (tid i : nat) (w : World) : World :=
  call (FileSelect tid i) (on_torrent tid (Torrent.select_file i) w).
Definition file_deselect (tid i : nat) (w : World) : World :=
  call (FileDeselect tid i) (on_torrent tid (Torrent.deselect_file i) w).

(** The [for] loop, from index [i], with [todo = torrent.files.length - i]
    rounds left.  [fileSelections[i]] past the end reads [undefined],
    which is falsy. *)
Fixpoint select_loop (todo : nat) (tid i : nat) (fileSelections : list bool)
    (w : World) : World :=
  match todo with
  | 0 => w
  | S todo' =>
      let w' :=
        if default false (fileSelections !! i)
        then file_select tid i w
        else file_deselect tid i w
      in select_loop todo' tid (S i) fileSelections w'
  end.

(** [TypeError] of reading a property of [undefined]. *)
Definition TypeError_undefined : JsErr :=
  ErrObject "TypeError: Cannot read property 'files' of undefined".

Definition selectFiles (fileSelections : list bool) (w : World) : Result World :=
  match client_torrents w with
  | [] => Throws TypeError_undefined
  | (tid, s) :: _ =>
      let t := torrent s in
      if negb (length fileSelections =? length (Torrent.files t))
      then
        Ok (debug DbgIgnoredSelection
             (debug (DbgGotLength (length fileSelections)
                                  (length (Torrent.files t))) w))
      else
        let w1 := torrent_deselect tid 0 (Z.of_nat (Torrent.pieces t) - 1) 0 w in
        let w2 := select_loop (length (Torrent.files t)) tid 0 fileSelections w1 in
        Ok (debug DbgImplementedSelection w2)
  end.

(** ** The constructor, [sendFiles] and the [seed] callback *)

(** The client after the constructor: no torrent, no timer, one socket
    listener ([addTorrent]).  The listener on the WebTorrent client's
    [error] event is [on_client_error] below. *)
Definition init : World := mkWorld [] None [] 0 [SockAddTorrent] false [].

Definition new_session (h : Torrent.t) (r : Role) (ls : list EventName) : Session :=
  mkSession h r false ls None None [].

Definition mark_all_destroyed (w : World) : World :=
  set_sessions (map (set_destroyed true) (sessions w)) w.

(** The listener of [this.client.on("error", ...)]. *)
Definition client_error_listener (err : JsErr) (w : World) : World :=
  emit Event.clientDestroyed
    (emit (Event.error err) (debug (DbgClientError err) w)).

(** An error of the client itself: the library destroys the client, and
    with it its torrents, and the listener runs. *)
Definition on_client_error (err : JsErr) (w : World) : World :=
  client_error_listener err (set_clientDestroyed true (mark_all_destroyed w)).

(** An [error] of a torrent that has no [error] listener: the library
    destroys that torrent only and hands the error to the client's [error]
    event, that is to the constructor's listener. *)
Definition unhandled_torrent_error (tid : nat) (err : JsErr) (w : World) : World :=
  client_error_listener err (with_session tid (set_destroyed true) w).

(** What [client.add] and [client.seed] throw on a destroyed client. *)
Definition client_is_destroyed : JsErr := ErrObject "client is destroyed".

(** [sendFiles]: [client.seed] puts a torrent in the client at once; its
    callback runs later ([on_seed]).  On a destroyed client [client.seed]
    throws and nothing is added.  Should the library find, once it has
    hashed the files, that their torrent is in the client already, it
    destroys the new torrent with an error: a torrent [error] like any
    other, see [step]. *)
Definition sendFiles_result (names : list string) (w : World) : Result World :=
  if clientDestroyed w then Throws client_is_destroyed
  else
    Ok (set_sessions (sessions w ++ [new_session (Torrent.seeded names) Seeder []])
                     (call (ClientSeed names) w)).

(** The world after [sendFiles] has returned or thrown: the call to
    [client.seed] was made in both cases. *)
Definition sendFiles (names : list string) (w : World) : World :=
  match sendFiles_result names w with
  | Ok w' => w'
  | Throws _ => call (ClientSeed names) w
  end.

Definition setTorrentErrorHandlers (tid : nat) (w : World) : World :=
  with_session tid (add_listener OnWarning)
    (with_session tid (add_listener OnError) w).

Definition setFileNames (h : Torrent.t) (w : World) : World :=
  set_fileNames (Some (map File.name (Torrent.files h))) w.

(** The callback given to [client.seed], for the torrent at [tid]. *)
Definition on_seed (tid : nat) (w : World) : World :=
  match sessions w !! tid with
  | None => w
  | Some s =>
      let h := torrent s in
      let w := setTorrentErrorHandlers tid w in
      let w := setFileNames h w in
      let w := emit Event.seeding w in
      let w := socket_emit (Msg.fileReady (Torrent.magnetURI h)) w in
      let w := add_socketListener SockProgressUpdate w in
      let w := with_session tid (add_listener OnUpload) w in
      add_socketListener (SockTorrentDone tid) w
  end.

(** The socket listeners registered by the [seed] callback. *)
Definition on_progressUpdate (info : JsValue) (w : World) : World :=
  emit (Event.progressUpdate info) w.

(** [torrent.destroy(cb)]: the library takes the torrent out of the
    client; [cb] runs later ([on_torrent_destroyed]). *)
Definition on_torrentDone (tid : nat) (w : World) : World :=
  with_session tid (set_destroyed true) (call (TorrentDestroy tid) w).

Definition on_torrent_destroyed (w : World) : World :=
  emit Event.torrentDestroyed (debug DbgTorrentDone w).

(** ** [addTorrent] and the closures it creates *)

(** [progressFiles[i] = v]: overwrites inside the array and appends at its
    end.  [forEach] visits the indices in increasing order from 0, so no
    index beyond the end is ever written. *)
Definition array_set (i : nat) (v : number) (a : list number) : list number :=
  if i <? length a then <[i := v]> a else a ++ [v].

(** [torrent.files.forEach((file, i) => progressFiles[i] = file.progress)],
    from index [i] on. *)
Fixpoint store_progress (i : nat) (fs : list File.t) (a : list number) : list number :=
  match fs with
  | [] => a
  | f :: fs' => store_progress (S i) fs' (array_set i (File.progress f) a)
  end.

Definition onDownload (tid : nat) (w : World) : World :=
  match sessions w !! tid with
  | None => w
  | Some s =>
      let h := torrent s in
      let a :=
        match progressFiles s with
        | None => replicate (length (Torrent.files h)) 0%Q
        | Some a => a
        end in
      let a := store_progress 0 (Torrent.files h) a in
      emit (Event.download
              (Info.mkDownload (FormatBytesPerS (Torrent.downloadSpeed h))
                               (FormatBytes (Torrent.downloaded h))
                               (Torrent.progress h) a (Torrent.timeRemaining h)))
           (with_session tid (set_progressFiles (Some a)) w)
  end.

Definition sendProgress (tid : nat) (w : World) : World :=
  match sessions w !! tid with
  | None => w
  | Some s =>
      let h := torrent s in
      socket_emit (Msg.progressUpdate
                     (Info.mkUpdate (Torrent.progress h) (progressFiles s)
                                    (Torrent.timeRemaining h))) w
  end.

(** The identifier is the one of a torrent that is in the client. *)
Definition repeated (magnetURI : string) (w : World) : bool :=
  existsb (fun p => String.eqb (Torrent.magnetURI (torrent (snd p))) magnetURI)
          (client_torrents w).

(** The library's error for a torrent whose identifier is in the client
    already. *)
Definition duplicate_torrent (magnetURI : string) : JsErr :=
  ErrObject ("Cannot add duplicate torrent " ++ magnetURI)%string.

(** [addTorrent]: [client.add] puts a torrent in the client, and the
    method registers its [metadata] and [ready] listeners on it; the
    callback ([on_add]) and the torrent's events come later.  On a
    destroyed client [client.add] throws and nothing is added.  When the
    identifier is the one of a torrent in the client, the library refuses
    the new torrent as soon as the method has returned, before any other
    callback: it destroys the new torrent with an error, which, the torrent
    having no [error] listener, comes to the constructor's listener. *)
Definition addTorrent_result (magnetURI : string) (w : World) : Result World :=
  if clientDestroyed w then Throws client_is_destroyed
  else
    let w' :=
      set_sessions
        (sessions w
         ++ [new_session (Torrent.added magnetURI) Downloader [OnMetadata; OnReady]])
        (call (ClientAdd magnetURI) w) in
    Ok (if repeated magnetURI w
        then unhandled_torrent_error (length (sessions w))
                                     (duplicate_torrent magnetURI) w'
        else w').

(** The world after [addTorrent] has returned or thrown: the call to
    [client.add] was made in both cases. *)
Definition addTorrent (magnetURI : string) (w : World) : World :=
  match addTorrent_result magnetURI w with
  | Ok w' => w'
  | Throws _ => call (ClientAdd magnetURI) w
  end.

Definition on_add (w : World) : World := emit Event.downloading w.

Definition on_metadata (tid : nat) (w : World) : World :=
  match sessions w !! tid with
  | None => w
  | Some s =>
      let h := torrent s in
      setFileNames h
        (with_session tid
           (set_progressFiles (Some (replicate (length (Torrent.files h)) 0%Q))) w)
  end.

(** [torrent.files.forEach((file, i) => file.getBlobURL(cb))], from index
    [i] on: each call hands the library a callback that knows [i] and
    [file.name]. *)
Fixpoint request_blobs (tid i : nat) (fs : list File.t) (w : World) : World :=
  match fs with
  | [] => w
  | f :: fs' =>
      request_blobs tid (S i) fs'
        (with_session tid (add_blobCallback (i, File.name f))
           (call (GetBlobURL tid i) w))
  end.

(** The callback given to [file.getBlobURL], for file [i] named [name]. *)
Definition on_blobURL (i : nat) (name : string) (err : option JsErr)
    (url : option string) (w : World) : World :=
  let no_err :=
    match url with
    | None => debug (DbgUndefinedUrl name) w
    | Some u => emit (Event.fileDownloadComplete i u) w
    end in
  match err with
  | Some e => if truthy err then debug (DbgObtainingFile name e) w else no_err
  | None => no_err
  end.

(** [window.setInterval(cb, TIME_INTERVAL)]: a fresh id, active until
    cleared; and [clearInterval(id)]. *)
Definition setInterval (tid : nat) (w : World) : nat * World :=
  let id := nextTimer w in
  (id, call (SetInterval id)
         (set_nextTimer (S id) (set_timers (timers w ++ [(id, tid)]) w))).

Definition clearInterval (id : option nat) (w : World) : World :=
  call (ClearInterval id)
    (match id with
     | None => w
     | Some n => set_timers (filter (fun t => negb (fst t =? n)) (timers w)) w
     end).

(** The interval's callback. *)
Definition on_tick (tid : nat) (w : World) : World :=
  onDownload tid (sendProgress tid w).

Definition on_ready (tid : nat) (w : World) : World :=
  match sessions w !! tid with
  | None => w
  | Some s =>
      let w := debug DbgBeginning w in
      let w := request_blobs tid 0 (Torrent.files (torrent s)) w in
      let '(id, w) := setInterval tid w in
      let w := with_session tid (set_downloadInfoInterval (Some id)) w in
      with_session tid (add_listener OnDone) w
  end.

Definition on_done (tid : nat) (w : World) : World :=
  match sessions w !! tid with
  | None => w
  | Some s =>
      let w := debug DbgComplete w in
      let w := socket_emit Msg.downloadComplete w in
      let w := emit Event.downloadComplete w in
      let w := clearInterval (downloadInfoInterval s) w in
      let w := onDownload tid w in
      sendProgress tid w
  end.

(** The listeners of [setTorrentErrorHandlers] and the [upload] listener. *)
Definition on_error (err : JsErr) (w : World) : World :=
  emit Event.torrentDestroyed (emit (Event.error err) (debug (DbgTorrentError err) w)).

Definition on_warning (err : JsErr) (w : World) : World :=
  debug (DbgTorrentWarning err) w.

Definition on_upload (tid : nat) (w : World) : World :=
  match sessions w !! tid with
  | None => w
  | Some s =>
      emit (Event.upload (FormatBytesPerS (Torrent.uploadSpeed (torrent s)))
                         (FormatBytes (Torrent.uploaded (torrent s)))) w
  end.

(** ** [destroy] *)

(** [destroy]: [this.client.destroy()], which destroys the client and
    its torrents; the method returns [null]. *)
Definition destroy (w : World) : World :=
  set_clientDestroyed true (mark_all_destroyed (call ClientDestroy w)).

(** ** Dispatch *)

(** The listener the class registers under each event name. *)
Definition listener (tid : nat) (ev : TorrentEvent) : World -> World :=
  match ev with
  | metadata => on_metadata tid
  | ready => on_ready tid
  | done => on_done tid
  | error err => on_error err
  | warning err => on_warning err
  | upload _ => on_upload tid
  end.

(** [torrent.emit(ev)]: every listener registered under the event's name
    when the event is emitted runs once. *)
Definition torrent_emit (tid : nat) (ev : TorrentEvent) (w : World) : World :=
  match sessions w !! tid with
  | None => w
  | Some s => Nat.iter (listenerCount (event_name ev) s) (listener tid ev) w
  end.

(** Messages arriving on the socket. *)
Inductive InMsg : Type :=
| InAddTorrent (magnetUri : string)
| InProgressUpdate (info : JsValue)
| InTorrentDone (magnetUri : string).

Definition socket_listener (m : InMsg) (l : SocketListener) (w : World) : World :=
  match m, l with
  | InAddTorrent uri, SockAddTorrent => addTorrent uri w
  | InProgressUpdate info, SockProgressUpdate => on_progressUpdate info w
  | InTorrentDone _, SockTorrentDone tid => on_torrentDone tid w
  | _, _ => w
  end.

(** A socket message runs the listeners registered for it, in the order of
    registration. *)
Definition socket_receive (m : InMsg) (w : World) : World :=
  fold_left (fun w l => socket_listener m l w) (socketListeners w) w.

(** Everything that can happen to a client: calls of its public methods,
    and the callbacks that the socket, the WebTorrent library and the timer
    make into it.  [Swarm] is the library changing a handle's fields
    between two callbacks. *)
Inductive Stimulus : Type :=
| CallSendFiles (names : list string)
| CallSelectFiles (fileSelections : list bool)
| CallAddTorrent (magnetURI : string)
| CallDestroy
| Socket (m : InMsg)
| ClientError (err : JsErr)
| SeedCallback (tid : nat)
| AddCallback (tid : nat)
| TorrentEmits (tid : nat) (ev : TorrentEvent)
| BlobURL (tid i : nat) (err : option JsErr) (url : option string)
| DestroyCallback (tid : nat)
| Tick (id : nat)
| Swarm (tid : nat) (h : Torrent.t).

Definition has_torrentDone (tid : nat) (w : World) : bool :=
  existsb (fun l => match l with SockTorrentDone t => t =? tid | _ => false end)
          (socketListeners w).

(** One stimulus.  A callback that was never handed out (a tick of a
    cleared interval, a [seed] callback for a torrent that was added) does
    not happen: the world stays as it is.  An exception thrown by
    [selectFiles] reaches the caller and leaves the world as it is.  A
    torrent with an [error] is destroyed by the library, which emits the
    error on the torrent when the torrent has an [error] listener and on
    the client when it has none.  The library emits [done] on a complete
    torrent only. *)
Definition step (x : Stimulus) (w : World) : World :=
  match x with
  | CallSendFiles names => sendFiles names w
  | CallSelectFiles v =>
      match selectFiles v w with
      | Ok w' => w'
      | Throws _ => w
      end
  | CallAddTorrent uri => addTorrent uri w
  | CallDestroy => destroy w
  | Socket m => socket_receive m w
  | ClientError err => on_client_error err w
  | SeedCallback tid =>
      match role <$> sessions w !! tid with
      | Some Seeder => on_seed tid w
      | _ => w
      end
  | AddCallback tid =>
      match role <$> sessions w !! tid with
      | Some Downloader => on_add w
      | _ => w
      end
  | TorrentEmits tid ev =>
      match ev with
      | error err =>
          match listenerCount OnError <$> sessions w !! tid with
          | Some 0 => unhandled_torrent_error tid err w
          | _ => torrent_emit tid ev (with_session tid (set_destroyed true) w)
          end
      | done =>
          match Torrent.complete <$> (torrent <$> sessions w !! tid) with
          | Some true => torrent_emit tid ev w
          | _ => w
          end
      | _ => torrent_emit tid ev w
      end
  | BlobURL tid i err url =>
      match sessions w !! tid with
      | None => w
      | Some s =>
          match List.find (fun c => fst c =? i) (blobCallbacks s) with
          | None => w
          | Some (_, name) => on_blobURL i name err url w
          end
      end
  | DestroyCallback tid =>
      match destroyed <$> sessions w !! tid with
      | Some true => if has_torrentDone tid w then on_torrent_destroyed w else w
      | _ => w
      end
  | Tick id =>
      match List.find (fun t => fst t =? id) (timers w) with
      | None => w
      | Some (_, tid) => on_tick tid w
      end
  | Swarm tid h => on_torrent tid (fun _ => h) w
  end.

Definition run (xs : list Stimulus) (w : World) : World :=
  fold_left (fun w x => step x w) xs w.

(** The states a client can be in. *)
Definition reachable (w : World) : Prop := exists xs, w = run xs init.

(** The events emitted to the local observer, and the progress snapshots
    published (a [download] event or an outbound [progressUpdate]), in a
    stretch of trace. *)
Definition emitted (tr : list Output) : list Event.t :=
  omap (fun o => match o with Emit e => Some e | _ => None end) tr.

Definition is_snapshot (o : Output) : bool :=
  match o with
  | Emit (Event.download _) => true
  | SocketEmit (Msg.progressUpdate _) => true
  | _ => false
  end.

Definition snapshots (tr : list Output) : list Output := List.filter is_snapshot tr.

(** The stretch of trace that [w'] has beyond the trace of [w]. *)
Definition since (w w' : World) : list Output := drop (length (trace w)) (trace w').

(** ** Auxiliary definitions for the statements *)

Definition directive (tid : nat) (sel : list bool) (i : nat) : Output :=
  Calls (if default false (sel !! i) then FileSelect tid i else FileDeselect tid i).

(** The download intent the loop gives to file [k]. *)
Definition set_intent (sel : list bool) (k : nat) (f : File.t) : File.t :=
  if default false (sel !! k) then File.select f else File.deselect f.

(** The files of the handle after the whole of a valid [selectFiles]. *)
Definition apply_selection (sel : list bool) (fs : list File.t) : list File.t :=
  imap (fun k f => File.mk (File.name f) (File.progress f) (default false (sel !! k))) fs.

(** The handle after [todo] rounds of the loop from index [i]. *)
Fixpoint loop_handle (todo i : nat) (sel : list bool) (h : Torrent.t) : Torrent.t :=
  match todo with
  | 0 => h
  | S todo' =>
      loop_handle todo' (S i) sel
        (if default false (sel !! i)
         then Torrent.select_file i h else Torrent.deselect_file i h)
  end.

(** The directive the loop issues for index [i] and choice [b]. *)
Definition directive_for (tid i : nat) (b : bool) : Output :=
  Calls (if b then FileSelect tid i else FileDeselect tid i).

(** The world after a [selectFiles] whose vector has the right length. *)
Definition selected_world (sel : list bool) (tid : nat) (s : Session) (w : World) : World :=
  let h := torrent s in
  mkWorld
    (<[tid := set_torrent (Torrent.set_files (apply_selection sel (Torrent.files h)) h) s]>
       (sessions w))
    (fileNames w) (timers w) (nextTimer w) (socketListeners w) (clientDestroyed w)
    (trace w
     ++ Calls (TorrentDeselect tid 0 (Z.of_nat (Torrent.pieces h) - 1) 0)
        :: imap (directive_for tid) sel
     ++ [Debug DbgImplementedSelection]).


(** ** Sample runs *)

(** A torrent of two files as the library shows it once the metadata is
    in, and later when the first file is complete and the second, left
    out of the download, has nothing. *)
Definition two_files : Torrent.t :=
  Torrent.mk "magnet:?xt=urn:btih:c0ffee"
             [File.mk "a.txt" 0%Q true; File.mk "b.bin" 0%Q true]
             4 0%Q 0%Q 0%Q 0%Q 0%Q None.

Definition two_files_first_complete : Torrent.t :=
  Torrent.mk "magnet:?xt=urn:btih:c0ffee"
             [File.mk "a.txt" 1%Q true; File.mk "b.bin" 0%Q false]
             4 (1 # 2)%Q 0%Q (2048 # 1)%Q 0%Q 0%Q (Some 0%Q).

(** A receiver that was told to add the torrent, got its metadata and
    its [ready] event: the interval is running. *)
Definition world_two_files : World :=
  run [Socket (InAddTorrent "magnet:?xt=urn:btih:c0ffee");
       Swarm 0 two_files;
       TorrentEmits 0 metadata;
       AddCallback 0;
       TorrentEmits 0 ready] init.

(** The one torrent of [world_two_files], with the closure of its
    [addTorrent] call. *)
Definition session_two_files : Session :=
  mkSession two_files Downloader false [OnMetadata; OnReady; OnDone]
            (Some 0) (Some [0%Q; 0%Q]) [(0, "a.txt"); (1, "b.bin")].

(** The number of [progressUpdate] listeners on the socket: one for each
    [seed] callback that has run. *)
Definition is_progressUpdate (l : SocketListener) : bool :=
  match l with SockProgressUpdate => true | _ => false end.

Definition progressUpdate_listeners (w : World) : nat :=
  length (List.filter is_progressUpdate (socketListeners w)).

(** The sender role: the [seed] callback of some [sendFiles] has run. *)
Definition sender (w : World) : Prop := In SockProgressUpdate (socketListeners w).

(** One result handed to a [getBlobURL] callback: the file index, the
    error and the URL. *)
Definition BlobResult : Type := nat * option JsErr * option string.

Definition blob_stimulus (tid : nat) (r : BlobResult) : Stimulus :=
  let '(i, err, url) := r in BlobURL tid i err url.

(** The callback logs a failure when the error is truthy or the URL is
    [undefined]; otherwise it reports the file. *)
Definition blob_event (r : BlobResult) : option Event.t :=
  let '(i, err, url) := r in
  if truthy err then None
  else match url with
       | None => None
       | Some u => Some (Event.fileDownloadComplete i u)
       end.

(** The callback for file [i] was handed to the library. *)
Definition outstanding (s : Session) (r : BlobResult) : Prop :=
  let '(i, _, _) := r in
  is_Some (List.find (fun c => fst c =? i) (blobCallbacks s)).

Definition is_debug (o : Output) : bool :=
  match o with Debug _ => true | _ => false end.

(** The world [w] after the outputs [tr] and no other change. *)
Definition grow (tr : list Output) (w : World) : World :=
  mkWorld (sessions w) (fileNames w) (timers w) (nextTimer w) (socketListeners w)
          (clientDestroyed w) (trace w ++ tr).

(** An output that is a debug line or an event for the observer. *)
Definition logged_or_emitted (o : Output) : Prop :=
  is_debug o = true \/ exists e, o = Emit e.

(** A sender: one file handed to [sendFiles], whose [seed] callback ran. *)
Definition world_seeding : World :=
  run [CallSendFiles ["a.txt"]; SeedCallback 0] init.

(** A progress message as the receiver's client sends it. *)
Definition sample_update : JsValue :=
  JsObject [("progress", JsNumber (1 # 2)%Q);
            ("progressFiles", JsArray [JsNumber (1 # 2)%Q]);
            ("timeRemaining", JsNumber (1500 # 1)%Q)].

(** The receiver of [world_two_files] after it chose the first file only
    and the swarm delivered all of that file. *)
Definition world_first_complete : World :=
  run [CallSelectFiles [true; false]; Swarm 0 two_files_first_complete]
      world_two_files.

(** The one torrent of [world_first_complete]. *)
Definition session_first_complete : Session :=
  mkSession two_files_first_complete Downloader false
            [OnMetadata; OnReady; OnDone]
            (Some 0) (Some [0%Q; 0%Q]) [(0, "a.txt"); (1, "b.bin")].

(** A fatal error as a torrent reports it. *)
Definition connection_lost : JsErr := ErrObject "connection lost".





(** ** Auxiliary definitions for the lifecycle statements *)

(** The number of listeners the torrent at [tid] has under a name; none
    when there is no such torrent. *)
Definition listeners_of (n : EventName) (tid : nat) (w : World) : nat :=
  from_option (listenerCount n) 0 (sessions w !! tid).

(** The array that [onDownload] starts from: the closure's
    [progressFiles], or zeros when it is still [undefined]. *)
Definition previous_sample (s : Session) : list number :=
  match progressFiles s with
  | None => replicate (length (Torrent.files (torrent s))) 0%Q
  | Some a => a
  end.

(** The array that [onDownload] leaves in the closure and emits. *)
Definition fresh_sample (s : Session) : list number :=
  store_progress 0 (Torrent.files (torrent s)) (previous_sample s).

(** The payloads of one sample of the torrent of [s]. *)
Definition download_of (s : Session) : Info.download :=
  Info.mkDownload (FormatBytesPerS (Torrent.downloadSpeed (torrent s)))
                  (FormatBytes (Torrent.downloaded (torrent s)))
                  (Torrent.progress (torrent s)) (fresh_sample s)
                  (Torrent.timeRemaining (torrent s)).

Definition update_of (s : Session) : Info.update :=
  Info.mkUpdate (Torrent.progress (torrent s)) (progressFiles s)
                (Torrent.timeRemaining (torrent s)).

(** The listeners each kind of torrent may carry: what [addTorrent] and
    its [ready] listener register, and what the [seed] callback
    registers. *)
Definition may_carry (r : Role) (n : EventName) : bool :=
  match r, n with
  | Downloader, (OnMetadata | OnReady | OnDone) => true
  | Seeder, (OnError | OnWarning | OnUpload) => true
  | _, _ => false
  end.

Definition attached_ok (s : Session) : bool :=
  forallb (may_carry (role s)) (listeners s).

(** The callbacks that the [ready] listener hands to [getBlobURL] for the
    files [fs], the first of which has index [i]. *)
Definition blob_requests (i : nat) (fs : list File.t) : list (nat * string) :=
  imap (fun k f => (i + k, File.name f)) fs.

Definition add_blobCallbacks (cs : list (nat * string)) (s : Session) : Session :=
  mkSession (torrent s) (role s) (destroyed s) (listeners s)
            (downloadInfoInterval s) (progressFiles s) (blobCallbacks s ++ cs).

(** The torrents that the [torrentDone] listeners on the socket close
    over, in the order of registration. *)
Definition torrentDone_targets (ls : list SocketListener) : list nat :=
  omap (fun l => match l with SockTorrentDone tid => Some tid | _ => None end) ls.

Definition is_addTorrent (l : SocketListener) : bool :=
  match l with SockAddTorrent => true | _ => false end.

Definition is_done_event (x : Stimulus) : bool :=
  match x with TorrentEmits _ done => true | _ => false end.

(** A sender with one file whose torrent is known to the swarm. *)
Definition seed_handle : Torrent.t :=
  Torrent.mk "magnet:?xt=urn:btih:5eed" [File.mk "a.txt" 1%Q true]
             2 1%Q 0%Q 0%Q (512 # 1)%Q (4096 # 1)%Q None.

Definition world_seed_pending : World :=
  run [CallSendFiles ["a.txt"]; Swarm 0 seed_handle] init.

Definition session_seed_pending : Session :=
  mkSession seed_handle Seeder false [] None None [].

(** The receiver of [world_two_files] before the [ready] event. *)
Definition world_metadata : World :=
  run [Socket (InAddTorrent "magnet:?xt=urn:btih:c0ffee");
       Swarm 0 two_files;
       TorrentEmits 0 metadata;
       AddCallback 0] init.

Definition session_metadata : Session :=
  mkSession two_files Downloader false [OnMetadata; OnReady]
            None (Some [0%Q; 0%Q]) [].

(** The receiver right after [addTorrent], when the swarm has found the
    metadata but the [metadata] event has not been delivered. *)
Definition world_added : World :=
  run [Socket (InAddTorrent "magnet:?xt=urn:btih:c0ffee"); Swarm 0 two_files] init.

Definition session_added : Session :=
  mkSession two_files Downloader false [OnMetadata; OnReady] None None [].

(** What the listeners of [setTorrentErrorHandlers] put out for one
    [error] event. *)
Definition error_report (err : JsErr) : list Output :=
  [Debug (DbgTorrentError err); Emit (Event.error err); Emit Event.torrentDestroyed].

(** The sender of [world_seed_pending] once its [seed] callback has run. *)
Definition world_seed_running : World := step (SeedCallback 0) world_seed_pending.

Definition session_seed_running : Session :=
  mkSession seed_handle Seeder false [OnError; OnWarning; OnUpload] None None [].

(** How the torrents are wired: for each torrent, how it came to the
    client and the listeners registered on it. *)
Definition wiring (w : World) : list (Role * list EventName) :=
  map (fun s => (role s, listeners s)) (sessions w).

(** A callback that leaves the socket's listeners, the timers and the
    wiring of the torrents as they are. *)
Definition same_wiring (w w' : World) : Prop :=
  socketListeners w' = socketListeners w
  /\ timers w' = timers w
  /\ wiring w' = wiring w.

(** Every torrent carries only listeners of its kind. *)
Definition well_attached (w : World) : Prop :=
  Forall (fun rl => forallb (may_carry (fst rl)) (snd rl) = true) (wiring w).

(** The constructor's [addTorrent] listener is the first listener on the
    socket and the only one of its kind. *)
Definition one_addTorrent_listener (w : World) : Prop :=
  exists ls, socketListeners w = SockAddTorrent :: ls
             /\ List.filter is_addTorrent ls = [].

(** The stimuli whose callbacks add no torrent, no listener and no timer,
    and clear no timer. *)
Definition quiet (x : Stimulus) : bool :=
  match x with
  | CallSendFiles _ | CallAddTorrent _ | SeedCallback _ => false
  | Socket (InAddTorrent _) => false
  | TorrentEmits _ ready | TorrentEmits _ done => false
  | _ => true
  end.

(** The wiring of a torrent with one more listener. *)
Definition wire (n : EventName) (rl : Role * list EventName) : Role * list EventName :=
  (fst rl, snd rl ++ [n]).

(** Two torrents in the client, the first with its metadata. *)
Definition world_two_live : World :=
  run [Socket (InAddTorrent "magnet:?xt=urn:btih:c0ffee");
       Socket (InAddTorrent "magnet:?xt=urn:btih:decaf");
       Swarm 0 two_files] init.

Definition session_decaf : Session :=
  new_session (Torrent.added "magnet:?xt=urn:btih:decaf") Downloader
              [OnMetadata; OnReady].

(** A receiver right after [addTorrent]: no metadata yet. *)
Definition world_no_metadata : World :=
  run [Socket (InAddTorrent "magnet:?xt=urn:btih:c0ffee")] init.

Definition session_no_metadata : Session :=
  new_session (Torrent.added "magnet:?xt=urn:btih:c0ffee") Downloader
              [OnMetadata; OnReady].

(** ** The servers chosen by the constructor *)

(** [if (process.env.X)]: an environment variable counts when it is set
    and not empty. *)
Definition env_set (v : option string) : bool :=
  match v with
  | None => false
  | Some s => negb (String.eqb s "")
  end.

(** [STUN_URL] and [TRACKER_URL] as the constructor computes them from the
    environment variables of the same names, and the [TRACKER_URLS] it
    announces to. *)
Definition STUN_URL (env : option string) : string :=
  match env with
  | Some v => if env_set env then ("stun:" ++ v ++ ":3478")%string
              else "stun:stun.l.google.com:19302"
  | None => "stun:stun.l.google.com:19302"
  end.

Definition TRACKER_URL (env : option string) : string :=
  match env with
  | Some v => if env_set env then ("ws://" ++ v ++ ":8000")%string
              else "wss://tracker.btorrent.xyz"
  | None => "wss://tracker.btorrent.xyz"
  end.

Definition TRACKER_URLS (env : option string) : list string := [TRACKER_URL env].

(** A receiver whose torrent fired [ready] although no [metadata] event
    was delivered. *)
Definition world_ready_without_metadata : World :=
  run [Socket (InAddTorrent "magnet:?xt=urn:btih:c0ffee");
       Swarm 0 two_files_first_complete;
       TorrentEmits 0 ready] init.

Definition session_ready_without_metadata : Session :=
  mkSession two_files_first_complete Downloader false
            [OnMetadata; OnReady; OnDone] (Some 0) None
            [(0, "a.txt"); (1, "b.bin")].

(** What the constructor's listener puts out for one [error] of the
    client. *)
Definition client_error_report (err : JsErr) : list Output :=
  [Debug (DbgClientError err); Emit (Event.error err); Emit Event.clientDestroyed].

(** * Properties *)

Lemma trace_out o w : trace (out o w) = trace w ++ [o].
Proof. reflexivity. Qed.
Lemma trace_with_session tid f w : trace (with_session tid f w) = trace w.
Proof. reflexivity. Qed.

Lemma select_loop_trace n : forall tid i sel w,
  trace (select_loop n tid i sel w) = trace w ++ map (directive tid sel) (seq i n).
Proof.
  induction n as [|n IH]; intros tid i sel w; simpl.
  - by rewrite app_nil_r.
  - rewrite IH. unfold directive at 2.
    destruct (default false (sel !! i)); simpl; by rewrite <- app_assoc.
Qed.

Lemma directive_imap tid sel :
  map (directive tid sel) (seq 0 (length sel))
  = imap (fun i (b : bool) => Calls (if b then FileSelect tid i else FileDeselect tid i)) sel.
Proof.
  apply list_eq. intros k.
  rewrite list_lookup_imap, list_lookup_fmap.
  destruct (sel !! k) as [b|] eqn:E; simpl.
  - rewrite lookup_seq_lt by (by eapply lookup_lt_Some). simpl.
    unfold directive. by rewrite E.
  - rewrite lookup_seq_ge; [done|]. by apply lookup_ge_None.
Qed.

(** *** What [selectFiles] leaves in the handle *)

Lemma alter_lookup {A} (f : A -> A) (l : list A) i x :
  l !! i = Some x -> alter f i l = <[i := f x]> l.
Proof.
  intros H. apply list_eq. intros k. destruct (decide (k = i)) as [->|Hne].
  - rewrite list_lookup_alter_eq, H. simpl.
    by rewrite list_lookup_insert_eq by (by eapply lookup_lt_Some).
  - by rewrite list_lookup_alter_ne, list_lookup_insert_ne.
Qed.

Lemma set_torrent_id s : set_torrent (torrent s) s = s.
Proof. by destruct s. Qed.

Lemma select_loop_sessions n : forall tid i sel w,
  sessions (select_loop n tid i sel w)
  = alter (fun s => set_torrent (loop_handle n i sel (torrent s)) s) tid (sessions w).
Proof.
  induction n as [|n IH]; intros tid i sel w; simpl.
  - symmetry. apply list_alter_id, set_torrent_id.
  - rewrite IH.
    destruct (default false (sel !! i)); simpl;
      rewrite list_alter_alter_eq; reflexivity.
Qed.

Lemma loop_handle_files n : forall i sel h k,
  Torrent.files (loop_handle n i sel h) !! k
  = (if decide (i <= k < i + n) then set_intent sel k else id) <$> Torrent.files h !! k.
Proof.
  induction n as [|n IH]; intros i sel h k; simpl.
  - case_decide; [lia|]. by destruct (Torrent.files h !! k).
  - rewrite IH. unfold set_intent at 2.
    destruct (decide (k = i)) as [->|Hne].
    + repeat case_decide; try lia.
      destruct (default false (sel !! i)) eqn:E; simpl;
        rewrite list_lookup_alter_eq; destruct (Torrent.files h !! i); simpl;
        unfold set_intent; by rewrite ?E.
    + assert (Torrent.files (if default false (sel !! i)
               then Torrent.select_file i h else Torrent.deselect_file i h) !! k
              = Torrent.files h !! k) as ->.
      { destruct (default false (sel !! i)); simpl;
          by rewrite list_lookup_alter_ne. }
      repeat case_decide; try lia; reflexivity.
Qed.

Lemma loop_handle_rest n : forall i sel h,
  loop_handle n i sel h = Torrent.set_files (Torrent.files (loop_handle n i sel h)) h.
Proof.
  induction n as [|n IH]; intros i sel h; simpl.
  - by destruct h.
  - rewrite IH at 1. by destruct (default false (sel !! i)).
Qed.

Lemma loop_after_deselect sel h :
  loop_handle (length (Torrent.files h)) 0 sel
    (Torrent.deselect 0 (Z.of_nat (Torrent.pieces h) - 1) 0 h)
  = Torrent.set_files (apply_selection sel (Torrent.files h)) h.
Proof.
  rewrite loop_handle_rest.
  unfold Torrent.deselect. rewrite !Z.eqb_refl. simpl.
  destruct h as [uri fs p a b c d e f]. simpl. unfold Torrent.set_files. simpl.
  f_equal.
  apply list_eq. intros k.
  rewrite loop_handle_files. simpl.
  unfold apply_selection. rewrite list_lookup_imap, list_lookup_fmap.
  destruct (fs !! k) as [x|] eqn:E; simpl; [|done].
  case_decide as Hk.
  - unfold set_intent. by destruct (default false (sel !! k)).
  - apply lookup_lt_Some in E. lia.
Qed.

Lemma world_eq w w' :
  sessions w = sessions w' -> fileNames w = fileNames w' ->
  timers w = timers w' -> nextTimer w = nextTimer w' ->
  socketListeners w = socketListeners w' ->
  clientDestroyed w = clientDestroyed w' -> trace w = trace w' -> w = w'.
Proof. destruct w, w'; simpl; congruence. Qed.

Lemma select_loop_frame n : forall tid i sel w,
  fileNames (select_loop n tid i sel w) = fileNames w
  /\ timers (select_loop n tid i sel w) = timers w
  /\ nextTimer (select_loop n tid i sel w) = nextTimer w
  /\ socketListeners (select_loop n tid i sel w) = socketListeners w
  /\ clientDestroyed (select_loop n tid i sel w) = clientDestroyed w.
Proof.
  induction n as [|n IH]; intros tid i sel w; simpl; [done|].
  destruct (IH tid (S i) sel
              (if default false (sel !! i)
               then file_select tid i w else file_deselect tid i w))
    as (-> & -> & -> & -> & ->).
  by destruct (default false (sel !! i)).
Qed.

(** *** [client.torrents[0]] *)

Lemma live_from_head l : forall i tid s rest,
  live_from i l = (tid, s) :: rest ->
  i <= tid /\ l !! (tid - i) = Some s /\ destroyed s = false.
Proof.
  induction l as [|x l IH]; intros i tid s rest; simpl; [done|].
  destruct (destroyed x) eqn:D.
  - intros H. destruct (IH _ _ _ _ H) as (Hle & Hl & Hd).
    split; [lia|]. split; [|done].
    replace (tid - i) with (S (tid - S i)) by lia. done.
  - intros [= <- <- _]. rewrite Nat.sub_diag. auto.
Qed.

Lemma client_torrents_head w tid s rest :
  client_torrents w = (tid, s) :: rest ->
  sessions w !! tid = Some s /\ destroyed s = false.
Proof.
  intros H. apply live_from_head in H as (_ & H & D).
  by rewrite Nat.sub_0_r in H.
Qed.

Lemma live_from_alter_head (f : Session -> Session) l :
  (forall s, destroyed (f s) = destroyed s) ->
  forall i tid s rest,
  live_from i l = (tid, s) :: rest ->
  exists rest', live_from i (alter f (tid - i) l) = (tid, f s) :: rest'.
Proof.
  intros Hf. induction l as [|x l IH]; intros i tid s rest; simpl; [done|].
  destruct (destroyed x) eqn:D.
  - intros H. pose proof (live_from_head _ _ _ _ _ H) as (Hle & _ & _).
    replace (tid - i) with (S (tid - S i)) by lia. simpl. rewrite D.
    by eapply IH.
  - intros [= <- <- _]. rewrite Nat.sub_diag. simpl. rewrite Hf, D. eauto.
Qed.

(** *** The two branches of [selectFiles] *)

Lemma selectFiles_valid sel w tid s rest :
  client_torrents w = (tid, s) :: rest ->
  length sel = length (Torrent.files (torrent s)) ->
  selectFiles sel w = Ok (selected_world sel tid s w).
Proof.
  intros Hc Hlen. unfold selectFiles. rewrite Hc, Hlen, Nat.eqb_refl. simpl.
  apply client_torrents_head in Hc as [Hs _].
  f_equal. apply world_eq; simpl.
  - rewrite select_loop_sessions. simpl. rewrite list_alter_alter_eq.
    rewrite (alter_lookup _ _ _ _ Hs). simpl. by rewrite loop_after_deselect.
  - by destruct (select_loop_frame (length (Torrent.files (torrent s))) tid 0 sel
        (torrent_deselect tid 0 (Z.of_nat (Torrent.pieces (torrent s)) - 1) 0 w))
      as (-> & _).
  - by destruct (select_loop_frame (length (Torrent.files (torrent s))) tid 0 sel
        (torrent_deselect tid 0 (Z.of_nat (Torrent.pieces (torrent s)) - 1) 0 w))
      as (_ & -> & _).
  - by destruct (select_loop_frame (length (Torrent.files (torrent s))) tid 0 sel
        (torrent_deselect tid 0 (Z.of_nat (Torrent.pieces (torrent s)) - 1) 0 w))
      as (_ & _ & -> & _).
  - by destruct (select_loop_frame (length (Torrent.files (torrent s))) tid 0 sel
        (torrent_deselect tid 0 (Z.of_nat (Torrent.pieces (torrent s)) - 1) 0 w))
      as (_ & _ & _ & -> & _).
  - by destruct (select_loop_frame (length (Torrent.files (torrent s))) tid 0 sel
        (torrent_deselect tid 0 (Z.of_nat (Torrent.pieces (torrent s)) - 1) 0 w))
      as (_ & _ & _ & _ & ->).
  - rewrite select_loop_trace. simpl. rewrite <- Hlen, directive_imap.
    by rewrite <- !app_assoc.
Qed.

Lemma length_apply_selection sel fs : length (apply_selection sel fs) = length fs.
Proof. apply length_imap. Qed.

Lemma selection_apply_selection sel fs :
  length sel = length fs -> map File.selected (apply_selection sel fs) = sel.
Proof.
  intros Hlen. apply list_eq. intros k. unfold apply_selection.
  rewrite list_lookup_fmap, list_lookup_imap.
  destruct (fs !! k) as [f|] eqn:E; simpl.
  - apply lookup_lt_Some in E.
    destruct (sel !! k) as [b|] eqn:F; [done|].
    apply lookup_ge_None in F. lia.
  - symmetry. apply lookup_ge_None. apply lookup_ge_None in E. lia.
Qed.

Lemma apply_selection_idem sel fs :
  apply_selection sel (apply_selection sel fs) = apply_selection sel fs.
Proof.
  apply list_eq. intros k. unfold apply_selection.
  rewrite !list_lookup_imap. by destruct (fs !! k).
Qed.

Lemma since_app w w' tr : trace w' = trace w ++ tr -> since w w' = tr.
Proof. intros H. unfold since. rewrite H. apply drop_app_length. Qed.

Lemma deselect_all_selection (fs : list File.t) :
  map File.selected (map File.deselect fs) = replicate (length fs) false.
Proof. induction fs as [|f fs IH]; simpl; [done|]. by f_equal. Qed.

(** ** The file selection controller *)

(** C10. [selectFiles] presupposes a torrent: on a client whose torrent
    list is empty, [this.client.torrents[0]] is [undefined] and reading its
    [files] throws, whatever the vector. *)
Theorem selectFiles_no_torrent_throws (fileSelections : list bool) (w : World) :
  client_torrents w = [] ->
  selectFiles fileSelections w = Throws TypeError_undefined.
Proof. intros H. unfold selectFiles. by rewrite H. Qed.

Lemma selectFiles_no_torrent_throws_witness :
  client_torrents init = []
  /\ selectFiles [true; false] init = Throws TypeError_undefined.
Proof.
  split; [reflexivity|].
  apply (selectFiles_no_torrent_throws [true; false] init). reflexivity.
Defined.

(** C5. With a torrent in the client and a vector whose length is not the
    number of files, [selectFiles] returns having only written two debug
    lines: no call reaches the handle, and the torrents (so every file's
    intent, name and progress), the file names, the timers and the socket
    listeners are what they were. *)
Theorem selectFiles_wrong_length_ignored
    (fileSelections : list bool) (w : World) tid s rest :
  client_torrents w = (tid, s) :: rest ->
  length fileSelections <> length (Torrent.files (torrent s)) ->
  exists w',
    selectFiles fileSelections w = Ok w'
    /\ sessions w' = sessions w
    /\ fileNames w' = fileNames w
    /\ timers w' = timers w
    /\ nextTimer w' = nextTimer w
    /\ socketListeners w' = socketListeners w
    /\ since w w'
       = [Debug (DbgGotLength (length fileSelections)
                              (length (Torrent.files (torrent s))));
          Debug DbgIgnoredSelection].
Proof.
  intros Hc Hlen. unfold selectFiles. rewrite Hc.
  apply Nat.eqb_neq in Hlen. rewrite Hlen. simpl.
  eexists. split; [reflexivity|]. repeat split.
  apply since_app. simpl. by rewrite <- app_assoc.
Qed.

Lemma selectFiles_wrong_length_ignored_witness :
  client_torrents world_two_files = [(0, session_two_files)]
  /\ exists w',
    selectFiles [true] world_two_files = Ok w'
    /\ sessions w' = sessions world_two_files
    /\ fileNames w' = fileNames world_two_files
    /\ timers w' = timers world_two_files
    /\ nextTimer w' = nextTimer world_two_files
    /\ socketListeners w' = socketListeners world_two_files
    /\ since world_two_files w'
       = [Debug (DbgGotLength 1 2); Debug DbgIgnoredSelection].
Proof.
  split; [reflexivity|].
  refine (selectFiles_wrong_length_ignored
            [true] world_two_files 0 session_two_files [] _ _).
  - reflexivity.
  - simpl. lia.
Defined.

(** C6. With a torrent in the client and a vector of the right length,
    [selectFiles] first deselects the whole piece range
    [0 .. pieces.length - 1] of the torrent, which leaves no file wanted,
    and then, for each index in increasing order, calls [select()] on the
    file when the vector holds [true] there and [deselect()] when it holds
    [false]; nothing else reaches the handle. *)
Theorem selectFiles_directives
    (fileSelections : list bool) (w : World) tid s rest :
  client_torrents w = (tid, s) :: rest ->
  length fileSelections = length (Torrent.files (torrent s)) ->
  exists w',
    selectFiles fileSelections w = Ok w'
    /\ since w w'
       = Calls (TorrentDeselect tid 0 (Z.of_nat (Torrent.pieces (torrent s)) - 1) 0)
         :: imap (fun i (b : bool) =>
                    Calls (if b then FileSelect tid i else FileDeselect tid i))
                 fileSelections
         ++ [Debug DbgImplementedSelection]
    /\ Torrent.selection
         (Torrent.deselect 0 (Z.of_nat (Torrent.pieces (torrent s)) - 1) 0 (torrent s))
       = replicate (length (Torrent.files (torrent s))) false.
Proof.
  intros Hc Hlen. exists (selected_world fileSelections tid s w).
  split; [by eapply selectFiles_valid|]. split.
  - by apply since_app.
  - unfold Torrent.deselect, Torrent.selection. rewrite !Z.eqb_refl. simpl.
    apply deselect_all_selection.
Qed.

Lemma selectFiles_directives_witness :
  client_torrents world_two_files = [(0, session_two_files)]
  /\ exists w',
    selectFiles [true; false] world_two_files = Ok w'
    /\ since world_two_files w'
       = [Calls (TorrentDeselect 0 0 3 0); Calls (FileSelect 0 0);
          Calls (FileDeselect 0 1); Debug DbgImplementedSelection]
    /\ Torrent.selection (Torrent.deselect 0 3 0 two_files) = [false; false].
Proof.
  split; [reflexivity|].
  refine (selectFiles_directives
            [true; false] world_two_files 0 session_two_files [] _ _);
    reflexivity.
Defined.

(** C7. With a torrent in the client and a vector of the right length,
    a second [selectFiles] with the same vector right after the first
    leaves every torrent, and so the selected/deselected state of every
    file, as the first left it; that state is the vector itself. *)
Theorem selectFiles_idempotent
    (fileSelections : list bool) (w : World) tid s rest :
  client_torrents w = (tid, s) :: rest ->
  length fileSelections = length (Torrent.files (torrent s)) ->
  exists w1 w2 s1,
    selectFiles fileSelections w = Ok w1
    /\ selectFiles fileSelections w1 = Ok w2
    /\ sessions w1 !! tid = Some s1
    /\ Torrent.selection (torrent s1) = fileSelections
    /\ sessions w2 = sessions w1.
Proof.
  intros Hc Hlen.
  pose (f := fun s0 : Session =>
               set_torrent (Torrent.set_files
                              (apply_selection fileSelections
                                 (Torrent.files (torrent s0))) (torrent s0)) s0).
  pose proof (client_torrents_head _ _ _ _ Hc) as [Hs _].
  assert (Hw1 : sessions (selected_world fileSelections tid s w)
                = alter f tid (sessions w)).
  { simpl. by rewrite (alter_lookup f _ _ _ Hs). }
  destruct (live_from_alter_head f (sessions w) (fun s0 => eq_refl) 0 tid s rest Hc)
    as [rest' Hc1].
  rewrite Nat.sub_0_r, <- Hw1 in Hc1.
  assert (Hlen1 : length fileSelections = length (Torrent.files (torrent (f s)))).
  { simpl. by rewrite length_apply_selection. }
  exists (selected_world fileSelections tid s w),
         (selected_world fileSelections tid (f s) (selected_world fileSelections tid s w)),
         (f s).
  split; [by eapply selectFiles_valid|].
  split; [by eapply selectFiles_valid|].
  split; [|split].
  - simpl. apply list_lookup_insert_eq. by eapply lookup_lt_Some.
  - simpl. by apply selection_apply_selection.
  - simpl. rewrite list_insert_insert_eq. f_equal.
    unfold f at 1. simpl. rewrite apply_selection_idem.
    unfold f. simpl. by destruct s as [[]].
Qed.

Lemma selectFiles_idempotent_witness :
  client_torrents world_two_files = [(0, session_two_files)]
  /\ exists w1 w2 s1,
    selectFiles [true; false] world_two_files = Ok w1
    /\ selectFiles [true; false] w1 = Ok w2
    /\ sessions w1 !! 0 = Some s1
    /\ Torrent.selection (torrent s1) = [true; false]
    /\ sessions w2 = sessions w1.
Proof.
  split; [reflexivity|].
  refine (selectFiles_idempotent
            [true; false] world_two_files 0 session_two_files [] _ _);
    reflexivity.
Defined.

(** ** The relay of the receiver's progress *)

Lemma relay_fold info ls : forall w,
  fold_left (fun w l => socket_listener (InProgressUpdate info) l w) ls w
  = mkWorld (sessions w) (fileNames w) (timers w) (nextTimer w) (socketListeners w)
            (clientDestroyed w)
            (trace w ++ replicate (length (List.filter is_progressUpdate ls))
                                  (Emit (Event.progressUpdate info))).
Proof.
  induction ls as [|l ls IH]; intros w; simpl.
  - rewrite app_nil_r. by destruct w.
  - rewrite IH. destruct l; simpl; try reflexivity.
    by rewrite <- app_assoc.
Qed.

Lemma emitted_replicate n e : emitted (replicate n (Emit e)) = replicate n e.
Proof. induction n as [|n IH]; simpl; [done|]. by f_equal. Qed.

Lemma sender_listeners w : sender w -> 1 <= progressUpdate_listeners w.
Proof.
  unfold sender, progressUpdate_listeners.
  induction (socketListeners w) as [|l ls IH]; simpl; [done|].
  intros [->|H]; simpl; [lia|].
  destruct (is_progressUpdate l); simpl; [lia|auto].
Qed.

(** C8. Once the client is a sender (the [seed] callback has registered
    the socket listener), a [progressUpdate] message from the socket makes
    the client emit [progressUpdate] with the very payload received: once
    per [seed] callback that has run, so at least once, and nothing else
    is emitted or changed. *)
Theorem progressUpdate_relayed_verbatim (info : JsValue) (w : World) :
  sender w ->
  let w' := step (Socket (InProgressUpdate info)) w in
  since w w' = replicate (progressUpdate_listeners w) (Emit (Event.progressUpdate info))
  /\ 1 <= progressUpdate_listeners w
  /\ In (Event.progressUpdate info) (emitted (since w w'))
  /\ (forall e, In e (emitted (since w w')) -> e = Event.progressUpdate info)
  /\ sessions w' = sessions w /\ timers w' = timers w.
Proof.
  intros Hs. pose proof (sender_listeners w Hs) as Hn. simpl.
  unfold socket_receive. rewrite relay_fold. simpl.
  unfold since. simpl. rewrite drop_app_length.
  fold (progressUpdate_listeners w).
  rewrite emitted_replicate. repeat split; try done.
  - destruct (progressUpdate_listeners w); [lia|]. by left.
  - intros e He'. apply list_elem_of_In, elem_of_replicate in He'. tauto.
Qed.

Lemma progressUpdate_relayed_verbatim_witness :
  sender world_seeding
  /\ since world_seeding (step (Socket (InProgressUpdate sample_update)) world_seeding)
     = [Emit (Event.progressUpdate sample_update)].
Proof.
  assert (H : sender world_seeding) by (right; left; reflexivity).
  split; [exact H|].
  exact (proj1 (progressUpdate_relayed_verbatim sample_update world_seeding H)).
Defined.

(** The [seed] callback makes the client a sender. *)
Lemma on_seed_sender tid s w : sessions w !! tid = Some s -> sender (on_seed tid w).
Proof.
  intros H. unfold on_seed, sender. rewrite H. simpl.
  apply in_or_app. left. apply in_or_app. right. by left.
Qed.

(** ** The [getBlobURL] callbacks *)

Lemma grow_grow tr1 tr2 w : grow tr2 (grow tr1 w) = grow (tr1 ++ tr2) w.
Proof. unfold grow. simpl. by rewrite <- app_assoc. Qed.

Lemma since_grow tr w : since w (grow tr w) = tr.
Proof. unfold since. simpl. apply drop_app_length. Qed.

Lemma blob_step tid s r w :
  sessions w !! tid = Some s ->
  outstanding s r ->
  exists o, step (blob_stimulus tid r) w = grow [o] w
            /\ emitted [o] = option_list (blob_event r)
            /\ logged_or_emitted o.
Proof.
  destruct r as [[i err] url]. unfold blob_stimulus, blob_event, outstanding, step.
  intros Hs [[j name] Hf]. rewrite Hs, Hf. unfold on_blobURL.
  destruct err as [e|].
  - destruct (truthy (Some e)) eqn:T.
    + eexists. split; [reflexivity|]. split; [done|]. by left.
    + destruct url as [u|]; eexists; (split; [reflexivity|]); split; try done;
        [right; eauto | by left].
  - change (truthy None) with false. cbv iota.
    destruct url as [u|]; eexists; (split; [reflexivity|]); split; try done;
      [right; eauto | by left].
Qed.

Lemma blob_run tid s rs : forall w,
  sessions w !! tid = Some s ->
  Forall (outstanding s) rs ->
  exists tr, run (map (blob_stimulus tid) rs) w = grow tr w
             /\ emitted tr = omap blob_event rs
             /\ Forall logged_or_emitted tr.
Proof.
  induction rs as [|r rs IH]; intros w Hs Hall.
  - exists []. simpl. split; [|done]. unfold grow. rewrite app_nil_r. by destruct w.
  - inversion Hall as [|? ? Hr Hrs]; subst.
    destruct (blob_step tid s r w Hs Hr) as (o & Hstep & Hem & Hlog).
    destruct (IH (grow [o] w) Hs Hrs) as (tr & Hrun & Hem' & Hlog').
    exists ([o] ++ tr). split; [|split].
    + simpl. by rewrite Hstep, Hrun, grow_grow.
    + unfold emitted in *. rewrite omap_app, Hem, Hem'.
      simpl. by destruct (blob_event r).
    + by constructor.
Qed.

(** C9. For a downloading torrent and any results that the library hands
    to the [getBlobURL] callbacks: a result with a truthy error or an
    [undefined] URL only writes a debug line, every other result makes the
    client emit [fileDownloadComplete] with the file's index and URL; no
    [error] is emitted, and the torrents, the timers and the file names
    stay as they were. *)
Theorem blob_failures_only_logged (rs : list BlobResult) (w : World) tid s :
  sessions w !! tid = Some s ->
  Forall (outstanding s) rs ->
  let w' := run (map (blob_stimulus tid) rs) w in
  emitted (since w w') = omap blob_event rs
  /\ Forall logged_or_emitted (since w w')
  /\ (forall err, ~ In (Event.error err) (emitted (since w w')))
  /\ sessions w' = sessions w
  /\ timers w' = timers w
  /\ fileNames w' = fileNames w.
Proof.
  intros Hs Hall. simpl.
  destruct (blob_run tid s rs w Hs Hall) as (tr & -> & Hem & Hlog).
  rewrite since_grow, Hem. repeat split; try done.
  intros err Hin. apply list_elem_of_In, list_elem_of_omap in Hin as (r & _ & Hr).
  destruct r as [[i e] u]. simpl in Hr.
  destruct (truthy e); [done|]. by destruct u.
Qed.

Lemma blob_failures_only_logged_witness :
  sessions world_two_files !! 0 = Some session_two_files
  /\ emitted (since world_two_files
                (run [BlobURL 0 0 (Some (ErrObject "quota exceeded")) None;
                      BlobURL 0 1 None (Some "blob:b")] world_two_files))
     = [Event.fileDownloadComplete 1 "blob:b"].
Proof.
  split; [reflexivity|].
  refine (proj1 (blob_failures_only_logged
                   [(0, Some (ErrObject "quota exceeded"), None);
                    (1, None, Some "blob:b")]
                   world_two_files 0 session_two_files _ _)).
  - reflexivity.
  - repeat constructor; simpl; eauto.
Defined.

(** ** The sampler and the end of a download *)

Lemma array_set_app pre rest v :
  array_set (length pre) v (pre ++ rest) = (pre ++ [v]) ++ tl rest.
Proof.
  unfold array_set. rewrite length_app.
  destruct rest as [|x rest]; simpl.
  - rewrite Nat.add_0_r, Nat.ltb_irrefl. by rewrite !app_nil_r.
  - assert ((length pre <? length pre + S (length rest)) = true) as ->
      by (apply Nat.ltb_lt; lia).
    rewrite insert_app_r_alt by lia. rewrite Nat.sub_diag. simpl.
    by rewrite <- app_assoc.
Qed.

(** [forEach] overwrites the first [files.length] entries of the array
    with the files' progress, extending the array when it is shorter. *)
Lemma store_progress_app fs : forall i pre rest,
  i = length pre ->
  store_progress i fs (pre ++ rest)
  = pre ++ map File.progress fs ++ drop (length fs) rest.
Proof.
  induction fs as [|f fs IH]; intros i pre rest ->; simpl.
  - by rewrite drop_0.
  - rewrite array_set_app.
    rewrite (IH (S (length pre)) (pre ++ [File.progress f]) (tl rest))
      by (rewrite length_app; simpl; lia).
    rewrite <- app_assoc. simpl. destruct rest; simpl; by rewrite ?drop_nil.
Qed.

Lemma store_progress_spec fs a :
  store_progress 0 fs a = map File.progress fs ++ drop (length fs) a.
Proof. exact (store_progress_app fs 0 [] a eq_refl). Qed.




Lemma on_done_eval w tid s :
  sessions w !! tid = Some s ->
  let h := torrent s in
  let a := store_progress 0 (Torrent.files h)
             (match progressFiles s with
              | None => replicate (length (Torrent.files h)) 0%Q
              | Some a => a
              end) in
  on_done tid w
  = mkWorld (alter (set_progressFiles (Some a)) tid (sessions w))
            (fileNames w)
            (match downloadInfoInterval s with
             | None => timers w
             | Some n => filter (fun t => negb (fst t =? n)) (timers w)
             end)
            (nextTimer w) (socketListeners w) (clientDestroyed w)
            (trace w ++
             [Debug DbgComplete; SocketEmit Msg.downloadComplete;
              Emit Event.downloadComplete;
              Calls (ClearInterval (downloadInfoInterval s));
              Emit (Event.download
                      (Info.mkDownload (FormatBytesPerS (Torrent.downloadSpeed h))
                                       (FormatBytes (Torrent.downloaded h))
                                       (Torrent.progress h) a (Torrent.timeRemaining h)));
              SocketEmit (Msg.progressUpdate
                            (Info.mkUpdate (Torrent.progress h) (Some a)
                                           (Torrent.timeRemaining h)))]).
Proof.
  intros Hs h a. unfold on_done. rewrite Hs.
  unfold onDownload.
  assert (H1 : sessions (clearInterval (downloadInfoInterval s)
                 (emit Event.downloadComplete
                    (socket_emit Msg.downloadComplete (debug DbgComplete w)))) !! tid
               = Some s).
  { destruct (downloadInfoInterval s); exact Hs. }
  rewrite H1. fold h. fold a.
  unfold sendProgress.
  assert (H2 : sessions
                 (emit (Event.download
                          (Info.mkDownload (FormatBytesPerS (Torrent.downloadSpeed h))
                             (FormatBytes (Torrent.downloaded h))
                             (Torrent.progress h) a (Torrent.timeRemaining h)))
                    (with_session tid (set_progressFiles (Some a))
                       (clearInterval (downloadInfoInterval s)
                          (emit Event.downloadComplete
                             (socket_emit Msg.downloadComplete
                                (debug DbgComplete w)))))) !! tid
               = Some (set_progressFiles (Some a) s)).
  { simpl. rewrite list_lookup_alter_eq.
    destruct (downloadInfoInterval s); simpl; by rewrite Hs. }
  rewrite H2.
  apply world_eq; destruct (downloadInfoInterval s); simpl;
    rewrite <- ?app_assoc; reflexivity.
Qed.



(** The library emits [done] on a complete torrent only: on a torrent
    that is not complete the event does not happen. *)
Lemma done_needs_complete (w : World) tid s :
  sessions w !! tid = Some s ->
  Torrent.complete (torrent s) = false ->
  step (TorrentEmits tid done) w = w.
Proof. intros Hs Hc. simpl. rewrite Hs. simpl. by rewrite Hc. Qed.

(** ** Errors, teardown and session starts *)

(** C2, on the code. A receiver whose interval is running gets a fatal
    [error] from its torrent.  [addTorrent] never installs the error
    listeners that [sendFiles] installs, so the torrent has no [error]
    listener and the error comes to the constructor's listener: the client
    emits [error] once and [clientDestroyed], and never [torrentDestroyed].
    The interval stays set, and its next tick publishes a [progressUpdate]
    message and a [download] event. *)
Lemma download_error_keeps_sampling :
  let w1 := step (TorrentEmits 0 (error connection_lost)) world_two_files in
  let w2 := step (Tick 0) w1 in
  since world_two_files w1
  = [Debug (DbgClientError connection_lost); Emit (Event.error connection_lost);
     Emit Event.clientDestroyed]
  /\ listenerCount OnError session_two_files = 0
  /\ timers w1 = [(0, 0)]
  /\ snapshots (since w1 w2)
     = [SocketEmit (Msg.progressUpdate (Info.mkUpdate 0%Q (Some [0%Q; 0%Q]) None));
        Emit (Event.download
                (Info.mkDownload (FormatBytesPerS 0%Q) (FormatBytes 0%Q) 0%Q
                                 [0%Q; 0%Q] None))].
Proof. vm_compute. repeat split. Qed.

(** C3, on the code. A receiver whose interval is running calls
    [destroy], once or twice: the only output is the [client.destroy()]
    call of each call, no notification is emitted, the interval stays set,
    and its next tick still publishes a [progressUpdate] message and a
    [download] event. *)
Lemma destroy_silent_and_sampled :
  let w1 := step CallDestroy world_two_files in
  let w2 := step CallDestroy w1 in
  let w3 := step (Tick 0) w2 in
  since world_two_files w1 = [Calls ClientDestroy]
  /\ since w1 w2 = [Calls ClientDestroy]
  /\ client_torrents w1 = []
  /\ timers w1 = [(0, 0)]
  /\ timers w2 = [(0, 0)]
  /\ snapshots (since w2 w3)
     = [SocketEmit (Msg.progressUpdate (Info.mkUpdate 0%Q (Some [0%Q; 0%Q]) None));
        Emit (Event.download
                (Info.mkDownload (FormatBytesPerS 0%Q) (FormatBytes 0%Q) 0%Q
                                 [0%Q; 0%Q] None))].
Proof. vm_compute. repeat split. Qed.






(** On a destroyed client a session start throws: [client.add] and
    [client.seed] are called and nothing is added. *)
Lemma session_start_on_destroyed_client (w : World) (uri : string) (names : list string) :
  clientDestroyed w = true ->
  addTorrent_result uri w = Throws client_is_destroyed
  /\ sendFiles_result names w = Throws client_is_destroyed
  /\ sessions (addTorrent uri w) = sessions w
  /\ sessions (sendFiles names w) = sessions w.
Proof.
  intros Hd. unfold addTorrent, addTorrent_result, sendFiles, sendFiles_result.
  by rewrite Hd.
Qed.

(** ** The sampler: [onDownload], [sendProgress] and the interval *)

Lemma onDownload_eval w tid s :
  sessions w !! tid = Some s ->
  onDownload tid w
  = mkWorld (alter (set_progressFiles (Some (fresh_sample s))) tid (sessions w))
            (fileNames w) (timers w) (nextTimer w) (socketListeners w)
            (clientDestroyed w)
            (trace w ++ [Emit (Event.download (download_of s))]).
Proof. intros Hs. unfold onDownload. by rewrite Hs. Qed.

Lemma sendProgress_eval w tid s :
  sessions w !! tid = Some s ->
  sendProgress tid w = grow [SocketEmit (Msg.progressUpdate (update_of s))] w.
Proof. intros Hs. unfold sendProgress. by rewrite Hs. Qed.

Lemma on_tick_eval w tid s :
  sessions w !! tid = Some s ->
  on_tick tid w
  = mkWorld (alter (set_progressFiles (Some (fresh_sample s))) tid (sessions w))
            (fileNames w) (timers w) (nextTimer w) (socketListeners w)
            (clientDestroyed w)
            (trace w ++ [SocketEmit (Msg.progressUpdate (update_of s));
                         Emit (Event.download (download_of s))]).
Proof.
  intros Hs. unfold on_tick.
  rewrite (sendProgress_eval w tid s Hs).
  rewrite (onDownload_eval _ tid s) by exact Hs.
  unfold grow. simpl. by rewrite <- app_assoc.
Qed.

(** The interval callback sends before it samples: the outbound
    [progressUpdate] carries the per-file array as the previous sample
    left it ([undefined] when there was none), the [download] event that
    follows carries the array sampled now, and that array is what the next
    [progressUpdate] will carry.  Nothing else changes. *)
Theorem tick_sends_previous_sample (w : World) id tid s :
  List.find (fun t => fst t =? id) (timers w) = Some (id, tid) ->
  sessions w !! tid = Some s ->
  let w' := step (Tick id) w in
  since w w' = [SocketEmit (Msg.progressUpdate
                              (Info.mkUpdate (Torrent.progress (torrent s))
                                             (progressFiles s)
                                             (Torrent.timeRemaining (torrent s))));
                Emit (Event.download (download_of s))]
  /\ sessions w' !! tid = Some (set_progressFiles (Some (fresh_sample s)) s)
  /\ (forall j, j <> tid -> sessions w' !! j = sessions w !! j)
  /\ timers w' = timers w.
Proof.
  intros Hf Hs. simpl. rewrite Hf, (on_tick_eval w tid s Hs).
  split; [by apply since_app|]. simpl. split; [|split; [|done]].
  - by rewrite list_lookup_alter_eq, Hs.
  - intros j Hj. by rewrite list_lookup_alter_ne.
Qed.

Lemma tick_sends_previous_sample_witness :
  List.find (fun t => fst t =? 0) (timers world_first_complete) = Some (0, 0)
  /\ sessions world_first_complete !! 0 = Some session_first_complete
  /\ since world_first_complete (step (Tick 0) world_first_complete)
     = [SocketEmit (Msg.progressUpdate
                      (Info.mkUpdate (1 # 2)%Q (Some [0%Q; 0%Q]) (Some 0%Q)));
        Emit (Event.download
                (Info.mkDownload (FormatBytesPerS 0%Q) (FormatBytes (2048 # 1)%Q)
                                 (1 # 2)%Q [1%Q; 0%Q] (Some 0%Q)))].
Proof.
  split; [vm_compute; reflexivity|]. split; [vm_compute; reflexivity|].
  refine (proj1 (tick_sends_previous_sample
                   world_first_complete 0 0 session_first_complete _ _));
    vm_compute; reflexivity.
Defined.

(** A sample reports every file: when the closure's array is still
    [undefined], or is no longer than the file list (as after [metadata]),
    the [download] event of [onDownload] carries exactly one fraction per
    file, the file's own [progress], in file order. *)
Theorem onDownload_reports_every_file (w : World) tid s :
  sessions w !! tid = Some s ->
  length (previous_sample s) <= length (Torrent.files (torrent s)) ->
  since w (onDownload tid w)
  = [Emit (Event.download
             (Info.mkDownload (FormatBytesPerS (Torrent.downloadSpeed (torrent s)))
                              (FormatBytes (Torrent.downloaded (torrent s)))
                              (Torrent.progress (torrent s))
                              (map File.progress (Torrent.files (torrent s)))
                              (Torrent.timeRemaining (torrent s))))].
Proof.
  intros Hs Hlen. rewrite (onDownload_eval w tid s Hs).
  apply since_app. simpl. unfold download_of, fresh_sample.
  rewrite store_progress_spec, drop_ge by exact Hlen. by rewrite app_nil_r.
Qed.

Lemma onDownload_reports_every_file_witness :
  sessions world_first_complete !! 0 = Some session_first_complete
  /\ since world_first_complete (onDownload 0 world_first_complete)
     = [Emit (Event.download
                (Info.mkDownload (FormatBytesPerS 0%Q) (FormatBytes (2048 # 1)%Q)
                                 (1 # 2)%Q [1%Q; 0%Q] (Some 0%Q)))].
Proof.
  split; [vm_compute; reflexivity|].
  refine (onDownload_reports_every_file
            world_first_complete 0 session_first_complete _ _).
  - vm_compute; reflexivity.
  - vm_compute. lia.
Defined.

(** ** [metadata] and [ready] *)

Lemma add_blobCallbacks_nil s : add_blobCallbacks [] s = s.
Proof. destruct s. unfold add_blobCallbacks. simpl. by rewrite app_nil_r. Qed.

Lemma request_blobs_eval fs : forall tid i w,
  request_blobs tid i fs w
  = mkWorld (alter (add_blobCallbacks (blob_requests i fs)) tid (sessions w))
            (fileNames w) (timers w) (nextTimer w) (socketListeners w)
            (clientDestroyed w)
            (trace w ++ imap (fun k _ => Calls (GetBlobURL tid (i + k))) fs).
Proof.
  induction fs as [|f fs IH]; intros tid i w; simpl.
  - rewrite app_nil_r, (list_alter_id _ _ _ add_blobCallbacks_nil). by destruct w.
  - rewrite IH. apply world_eq; simpl; try reflexivity.
    + rewrite list_alter_alter_eq. apply list_alter_ext; [|done].
      intros s _. unfold add_blobCallbacks, add_blobCallback, blob_requests. simpl.
      rewrite <- app_assoc, Nat.add_0_r. simpl. do 2 f_equal.
      f_equal. apply imap_ext. intros k x _. simpl. f_equal. lia.
    + rewrite <- app_assoc, Nat.add_0_r. simpl. do 2 f_equal.
      apply imap_ext. intros k x _. simpl. do 2 f_equal. lia.
Qed.

Lemma on_ready_eval w tid s :
  sessions w !! tid = Some s ->
  on_ready tid w
  = mkWorld
      (alter (fun s0 => add_listener OnDone
                 (set_downloadInfoInterval (Some (nextTimer w))
                    (add_blobCallbacks (blob_requests 0 (Torrent.files (torrent s))) s0)))
             tid (sessions w))
      (fileNames w) (timers w ++ [(nextTimer w, tid)]) (S (nextTimer w))
      (socketListeners w) (clientDestroyed w)
      (trace w ++ Debug DbgBeginning
         :: imap (fun k _ => Calls (GetBlobURL tid k)) (Torrent.files (torrent s))
         ++ [Calls (SetInterval (nextTimer w))]).
Proof.
  intros Hs. unfold on_ready. rewrite Hs, request_blobs_eval. unfold setInterval.
  apply world_eq; simpl; try reflexivity.
  - by rewrite !list_alter_alter_eq.
  - by rewrite <- !app_assoc.
Qed.

Lemma find_blob_requests fs : forall i k f,
  fs !! k = Some f ->
  List.find (fun c => fst c =? i + k) (blob_requests i fs) = Some (i + k, File.name f).
Proof.
  induction fs as [|x fs IH]; intros i k f; [done|].
  unfold blob_requests. simpl. destruct k as [|k]; simpl.
  - intros [= ->]. by rewrite Nat.add_0_r, Nat.eqb_refl.
  - intros Hf. assert ((i + 0 =? i + S k) = false) as -> by (apply Nat.eqb_neq; lia).
    specialize (IH (S i) k f Hf).
    replace (i + S k) with (S i + k) by lia.
    rewrite <- IH. unfold blob_requests. f_equal.
    apply imap_ext. intros j y _. simpl. f_equal. lia.
Qed.

(** The [ready] listener of a torrent made by [addTorrent], run once:
    it asks for the blob URL of every file, in file order, then sets one
    interval, whose id goes to the closure, and registers one more [done]
    listener.  When no callback was outstanding before, the callback of
    each file is outstanding afterwards, bound to that file's index and
    name. *)
Theorem ready_requests_blobs_and_starts_interval (w : World) tid s :
  sessions w !! tid = Some s ->
  listenerCount OnReady s = 1 ->
  let w' := step (TorrentEmits tid ready) w in
  since w w'
  = Debug DbgBeginning
    :: imap (fun k _ => Calls (GetBlobURL tid k)) (Torrent.files (torrent s))
    ++ [Calls (SetInterval (nextTimer w))]
  /\ timers w' = timers w ++ [(nextTimer w, tid)]
  /\ nextTimer w' = S (nextTimer w)
  /\ exists s',
       sessions w' !! tid = Some s'
       /\ downloadInfoInterval s' = Some (nextTimer w)
       /\ listenerCount OnDone s' = S (listenerCount OnDone s)
       /\ (blobCallbacks s = [] ->
           forall k f, Torrent.files (torrent s) !! k = Some f ->
             List.find (fun c => fst c =? k) (blobCallbacks s')
             = Some (k, File.name f)).
Proof.
  intros Hs Hone. simpl. unfold torrent_emit. rewrite Hs. simpl. rewrite Hone. simpl.
  rewrite (on_ready_eval w tid s Hs).
  split; [by apply since_app|]. simpl. split; [done|]. split; [done|].
  eexists. split; [by rewrite list_lookup_alter_eq, Hs|]. simpl.
  split; [done|]. split.
  - unfold listenerCount. simpl. rewrite filter_app, length_app. simpl. lia.
  - intros Hnil k f Hf. rewrite Hnil. simpl.
    exact (find_blob_requests _ 0 k f Hf).
Qed.

Lemma ready_requests_blobs_and_starts_interval_witness :
  sessions world_metadata !! 0 = Some session_metadata
  /\ since world_metadata (step (TorrentEmits 0 ready) world_metadata)
     = [Debug DbgBeginning; Calls (GetBlobURL 0 0); Calls (GetBlobURL 0 1);
        Calls (SetInterval 0)].
Proof.
  split; [vm_compute; reflexivity|].
  refine (proj1 (ready_requests_blobs_and_starts_interval
                   world_metadata 0 session_metadata _ _));
    vm_compute; reflexivity.
Defined.

(** The [metadata] listener of a torrent made by [addTorrent], run once:
    [fileNames] becomes the names of the torrent's files, in file order,
    and the closure's [progressFiles] becomes one zero per file; nothing
    is emitted and no timer is touched. *)
Theorem metadata_names_files_and_zeroes_progress (w : World) tid s :
  sessions w !! tid = Some s ->
  listenerCount OnMetadata s = 1 ->
  let w' := step (TorrentEmits tid metadata) w in
  fileNames w' = Some (map File.name (Torrent.files (torrent s)))
  /\ sessions w' !! tid
     = Some (set_progressFiles
               (Some (replicate (length (Torrent.files (torrent s))) 0%Q)) s)
  /\ (forall j, j <> tid -> sessions w' !! j = sessions w !! j)
  /\ since w w' = []
  /\ timers w' = timers w.
Proof.
  intros Hs Hone. simpl. unfold torrent_emit. rewrite Hs. simpl. rewrite Hone. simpl.
  unfold on_metadata. rewrite Hs. simpl.
  split; [done|]. split; [by rewrite list_lookup_alter_eq, Hs|].
  split; [intros j Hj; by rewrite list_lookup_alter_ne|].
  split; [|done]. unfold since. simpl. apply drop_all.
Qed.

Lemma metadata_names_files_and_zeroes_progress_witness :
  sessions world_added !! 0 = Some session_added
  /\ fileNames (step (TorrentEmits 0 metadata) world_added) = Some ["a.txt"; "b.bin"]
  /\ sessions (step (TorrentEmits 0 metadata) world_added) !! 0
     = Some (set_progressFiles (Some [0%Q; 0%Q]) session_added).
Proof.
  split; [vm_compute; reflexivity|].
  destruct (metadata_names_files_and_zeroes_progress world_added 0 session_added)
    as (H1 & H2 & _); [vm_compute; reflexivity | vm_compute; reflexivity |].
  exact (conj H1 H2).
Defined.

(** ** The sender: the [seed] callback and its listeners *)

Lemma on_seed_session (w : World) tid s :
  sessions w !! tid = Some s ->
  sessions (on_seed tid w) !! tid
  = Some (add_listener OnUpload (add_listener OnWarning (add_listener OnError s))).
Proof.
  intros Hs. unfold on_seed. rewrite Hs. simpl.
  by rewrite !list_lookup_alter_eq, Hs.
Qed.

(** The [seed] callback, for a torrent made by [sendFiles]: it emits
    [seeding], sends [fileReady] with the torrent's magnet URI, sets
    [fileNames] to the names of the torrent's files, registers the
    [error], [warning] and [upload] listeners on the torrent, and adds to
    the socket one [progressUpdate] listener and one [torrentDone]
    listener bound to this torrent, behind the listeners already there. *)
Theorem seed_callback_announces_and_listens (w : World) tid s :
  sessions w !! tid = Some s ->
  role s = Seeder ->
  let w' := step (SeedCallback tid) w in
  since w w' = [Emit Event.seeding;
                SocketEmit (Msg.fileReady (Torrent.magnetURI (torrent s)))]
  /\ fileNames w' = Some (map File.name (Torrent.files (torrent s)))
  /\ socketListeners w'
     = socketListeners w ++ [SockProgressUpdate; SockTorrentDone tid]
  /\ progressUpdate_listeners w' = S (progressUpdate_listeners w)
  /\ sessions w' !! tid
     = Some (add_listener OnUpload (add_listener OnWarning (add_listener OnError s)))
  /\ (forall j, j <> tid -> sessions w' !! j = sessions w !! j)
  /\ timers w' = timers w.
Proof.
  intros Hs Hrole. simpl. rewrite Hs. simpl. rewrite Hrole.
  unfold on_seed. rewrite Hs. simpl.
  split; [apply since_app; simpl; by rewrite <- app_assoc|].
  split; [done|]. split; [by rewrite <- app_assoc|]. split.
  - unfold progressUpdate_listeners. simpl.
    rewrite <- app_assoc, List.filter_app, length_app. simpl. lia.
  - split; [|split; [|done]].
    + by rewrite !list_lookup_alter_eq, Hs.
    + intros j Hj. by rewrite !list_lookup_alter_ne.
Qed.

Lemma seed_callback_announces_and_listens_witness :
  sessions world_seed_pending !! 0 = Some session_seed_pending
  /\ since world_seed_pending (step (SeedCallback 0) world_seed_pending)
     = [Emit Event.seeding; SocketEmit (Msg.fileReady "magnet:?xt=urn:btih:5eed")].
Proof.
  split; [vm_compute; reflexivity|].
  refine (proj1 (seed_callback_announces_and_listens
                   world_seed_pending 0 session_seed_pending _ _));
    vm_compute; reflexivity.
Defined.

Lemma grow_nil w : grow [] w = w.
Proof. unfold grow. rewrite app_nil_r. by destruct w. Qed.

Lemma concat_replicate_snoc {A} n (l : list A) :
  concat (replicate n l) ++ l = l ++ concat (replicate n l).
Proof.
  induction n as [|n IH]; simpl; [by rewrite app_nil_r|].
  by rewrite <- app_assoc, IH.
Qed.

(** A listener that only writes [tr], run [n] times. *)
Lemma iter_grow (f : World -> World) tr ss :
  (forall w, sessions w = ss -> f w = grow tr w) ->
  forall n w, sessions w = ss ->
    Nat.iter n f w = grow (concat (replicate n tr)) w.
Proof.
  intros Hf n. induction n as [|n IH]; intros w Hw; simpl.
  - by rewrite grow_nil.
  - rewrite IH by done. rewrite Hf by done.
    by rewrite grow_grow, concat_replicate_snoc.
Qed.

Lemma on_error_grow err w : on_error err w = grow (error_report err) w.
Proof.
  unfold on_error, grow, error_report. apply world_eq; simpl; try done.
  by rewrite <- !app_assoc.
Qed.

Lemma error_dispatch (w : World) tid s err :
  sessions w !! tid = Some s ->
  0 < listenerCount OnError s ->
  since w (step (TorrentEmits tid (error err)) w)
  = concat (replicate (listenerCount OnError s) (error_report err))
  /\ timers (step (TorrentEmits tid (error err)) w) = timers w.
Proof.
  intros Hs Hn. unfold step. rewrite Hs. simpl.
  destruct (listenerCount OnError s) as [|n] eqn:En; [lia|].
  unfold torrent_emit. simpl. rewrite list_lookup_alter_eq, Hs. simpl.
  change (listenerCount OnError (set_destroyed true s))
    with (listenerCount OnError s). rewrite En.
  rewrite (iter_grow (on_error err) (error_report err)
             (alter (set_destroyed true) tid (sessions w)));
    [|intros; apply on_error_grow|done].
  split; [|done]. unfold since. simpl. apply drop_app_length.
Qed.

Lemma error_unhandled (w : World) tid s err :
  sessions w !! tid = Some s ->
  listenerCount OnError s = 0 ->
  step (TorrentEmits tid (error err)) w = unhandled_torrent_error tid err w
  /\ since w (step (TorrentEmits tid (error err)) w) = client_error_report err.
Proof.
  intros Hs Hn. unfold step. rewrite Hs. simpl. rewrite Hn. split; [done|].
  apply since_app. simpl. by rewrite <- !app_assoc.
Qed.

(** A torrent's [warning] event only writes debug lines, one per
    registered listener: nothing is emitted and nothing else changes. *)
Theorem torrent_warning_only_logged (w : World) tid err :
  step (TorrentEmits tid (warning err)) w
  = grow (replicate (listeners_of OnWarning tid w) (Debug (DbgTorrentWarning err))) w.
Proof.
  simpl. unfold torrent_emit, listeners_of.
  destruct (sessions w !! tid) as [s|] eqn:Hs; simpl; [|by rewrite grow_nil].
  rewrite (iter_grow (on_warning err) [Debug (DbgTorrentWarning err)] (sessions w));
    [|done|done].
  f_equal. induction (listenerCount OnWarning s) as [|n IH]; simpl; [done|].
  by f_equal.
Qed.

(** A torrent's [upload] event makes every registered [upload] listener
    emit [upload] with the torrent's upload speed and uploaded bytes as the
    handle shows them at that moment; the byte count passed with the event
    is not used. *)
Theorem torrent_upload_reports_handle_counters (w : World) tid s bytes :
  sessions w !! tid = Some s ->
  step (TorrentEmits tid (upload bytes)) w
  = grow (replicate (listenerCount OnUpload s)
            (Emit (Event.upload (FormatBytesPerS (Torrent.uploadSpeed (torrent s)))
                                (FormatBytes (Torrent.uploaded (torrent s)))))) w.
Proof.
  intros Hs. simpl. unfold torrent_emit. rewrite Hs. simpl.
  rewrite (iter_grow (on_upload tid)
             [Emit (Event.upload (FormatBytesPerS (Torrent.uploadSpeed (torrent s)))
                                 (FormatBytes (Torrent.uploaded (torrent s))))]
             (sessions w)); [|intros w0 Hw0; unfold on_upload; by rewrite Hw0, Hs|done].
  f_equal. induction (listenerCount OnUpload s) as [|n IH]; simpl; [done|].
  by f_equal.
Qed.

Lemma torrent_upload_reports_handle_counters_witness :
  sessions world_seed_running !! 0 = Some session_seed_running
  /\ step (TorrentEmits 0 (upload (100 # 1)%Q)) world_seed_running
     = grow [Emit (Event.upload (FormatBytesPerS (512 # 1)%Q)
                                (FormatBytes (4096 # 1)%Q))] world_seed_running.
Proof.
  split; [vm_compute; reflexivity|].
  refine (torrent_upload_reports_handle_counters
            world_seed_running 0 session_seed_running (100 # 1)%Q _).
  vm_compute; reflexivity.
Defined.

(** ** What callbacks leave alone *)

Lemma same_wiring_refl w : same_wiring w w.
Proof. by repeat split. Qed.

Lemma same_wiring_trans w1 w2 w3 :
  same_wiring w1 w2 -> same_wiring w2 w3 -> same_wiring w1 w3.
Proof. intros (? & ? & ?) (? & ? & ?). repeat split; congruence. Qed.

Lemma wiring_alter (f : Session -> Session) tid ss :
  (forall s, role (f s) = role s /\ listeners (f s) = listeners s) ->
  map (fun s => (role s, listeners s)) (alter f tid ss)
  = map (fun s => (role s, listeners s)) ss.
Proof.
  intros Hf. revert tid. induction ss as [|s ss IH]; intros [|tid]; simpl; try done.
  - destruct (Hf s) as [-> ->]. done.
  - f_equal. apply IH.
Qed.

Lemma same_wiring_grow tr w : same_wiring w (grow tr w).
Proof. by repeat split. Qed.

Lemma same_wiring_with_session (f : Session -> Session) tid w :
  (forall s, role (f s) = role s /\ listeners (f s) = listeners s) ->
  same_wiring w (with_session tid f w).
Proof.
  intros Hf. repeat split. unfold wiring. simpl. by apply wiring_alter.
Qed.

Lemma same_wiring_iter (f : World -> World) :
  (forall w, same_wiring w (f w)) -> forall n w, same_wiring w (Nat.iter n f w).
Proof.
  intros Hf n. induction n as [|n IH]; intros w; simpl.
  - apply same_wiring_refl.
  - eapply same_wiring_trans; [apply IH|apply Hf].
Qed.

Lemma same_wiring_onDownload tid w : same_wiring w (onDownload tid w).
Proof.
  destruct (sessions w !! tid) as [s|] eqn:Hs.
  - rewrite (onDownload_eval w tid s Hs). repeat split.
    unfold wiring. simpl. by apply wiring_alter.
  - unfold onDownload. rewrite Hs. apply same_wiring_refl.
Qed.

Lemma same_wiring_sendProgress tid w : same_wiring w (sendProgress tid w).
Proof. unfold sendProgress. by destruct (sessions w !! tid). Qed.

Lemma same_wiring_on_tick tid w : same_wiring w (on_tick tid w).
Proof.
  unfold on_tick. eapply same_wiring_trans;
    [apply same_wiring_sendProgress|apply same_wiring_onDownload].
Qed.

Lemma same_wiring_on_metadata tid w : same_wiring w (on_metadata tid w).
Proof.
  unfold on_metadata. destruct (sessions w !! tid) as [s|]; [|apply same_wiring_refl].
  repeat split. unfold wiring. simpl. by apply wiring_alter.
Qed.

Lemma same_wiring_on_upload tid w : same_wiring w (on_upload tid w).
Proof. unfold on_upload. by destruct (sessions w !! tid). Qed.

Lemma same_wiring_on_blobURL i name err url w :
  same_wiring w (on_blobURL i name err url w).
Proof.
  unfold on_blobURL. destruct err as [e|]; [destruct (truthy (Some e))|];
    by destruct url.
Qed.

Lemma same_wiring_select_loop n : forall tid i sel w,
  same_wiring w (select_loop n tid i sel w).
Proof.
  induction n as [|n IH]; intros tid i sel w; simpl; [apply same_wiring_refl|].
  eapply same_wiring_trans; [|apply IH].
  destruct (default false (sel !! i)); repeat split;
    unfold wiring; simpl; by apply wiring_alter.
Qed.

Lemma same_wiring_selectFiles sel w w' :
  selectFiles sel w = Ok w' -> same_wiring w w'.
Proof.
  unfold selectFiles. destruct (client_torrents w) as [|[tid s] rest]; [done|].
  destruct (negb _); intros [= <-]; [done|].
  eapply same_wiring_trans; [|eapply same_wiring_trans;
    [apply same_wiring_select_loop|apply (same_wiring_grow [_])]].
  repeat split. unfold wiring. simpl. by apply wiring_alter.
Qed.

Lemma same_wiring_mark_all_destroyed w : same_wiring w (mark_all_destroyed w).
Proof.
  repeat split. unfold wiring. simpl.
  induction (sessions w) as [|s ss IH]; simpl; [done|]. by f_equal.
Qed.

Lemma same_wiring_socket_listener m l w :
  (forall uri, m <> InAddTorrent uri) -> same_wiring w (socket_listener m l w).
Proof.
  intros Hm. destruct m as [uri|info|uri], l as [| |tid]; simpl;
    try apply same_wiring_refl; try done.
  - by destruct (Hm uri).
  - repeat split. unfold wiring. simpl. by apply wiring_alter.
Qed.

Lemma same_wiring_fold m (Hm : forall uri, m <> InAddTorrent uri) ls : forall w,
  same_wiring w (fold_left (fun w l => socket_listener m l w) ls w).
Proof.
  induction ls as [|l ls IH]; intros w; simpl; [apply same_wiring_refl|].
  eapply same_wiring_trans; [by apply same_wiring_socket_listener|apply IH].
Qed.

(** Apart from the calls and callbacks that start a session, register
    listeners or belong to [ready] and [done], nothing the client does adds
    or removes a torrent listener, a socket listener or an interval. *)
Lemma step_same_wiring x w : quiet x = true -> same_wiring w (step x w).
Proof.
  destruct x as [names|sel|uri| |m|err|tid|tid|tid ev|tid i err url|tid|id|tid h];
    simpl; try done; intros Hq.
  - destruct (selectFiles sel w) as [w'|e] eqn:E; [|apply same_wiring_refl].
    by eapply same_wiring_selectFiles.
  - apply (same_wiring_mark_all_destroyed (call ClientDestroy w)).
  - unfold socket_receive. apply same_wiring_fold.
    intros uri ->. done.
  - apply (same_wiring_trans _ (mark_all_destroyed w));
      [apply same_wiring_mark_all_destroyed|done].
  - destruct (role <$> sessions w !! tid) as [[]|]; done.
  - destruct ev as [| | |err|err|bytes]; try done; simpl.
    + unfold torrent_emit.
      destruct (sessions w !! tid) as [s|]; [|apply same_wiring_refl].
      apply same_wiring_iter, same_wiring_on_metadata.
    + assert (H0 : same_wiring w (with_session tid (set_destroyed true) w))
        by (by apply same_wiring_with_session).
      destruct (listenerCount OnError <$> sessions w !! tid) as [[|n]|].
      * exact H0.
      * eapply same_wiring_trans; [exact H0|]. unfold torrent_emit.
        destruct (sessions _ !! tid) as [s|]; [|apply same_wiring_refl].
        by apply same_wiring_iter.
      * eapply same_wiring_trans; [exact H0|]. unfold torrent_emit.
        destruct (sessions _ !! tid) as [s|]; [|apply same_wiring_refl].
        by apply same_wiring_iter.
    + unfold torrent_emit.
      destruct (sessions w !! tid) as [s|]; [|apply same_wiring_refl].
      by apply same_wiring_iter.
    + unfold torrent_emit.
      destruct (sessions w !! tid) as [s|]; [|apply same_wiring_refl].
      apply same_wiring_iter, same_wiring_on_upload.
  - destruct (sessions w !! tid) as [s|]; [|apply same_wiring_refl].
    destruct (List.find _ _) as [[j name]|]; [|apply same_wiring_refl].
    apply same_wiring_on_blobURL.
  - destruct (destroyed <$> sessions w !! tid) as [[]|]; try apply same_wiring_refl.
    by destruct (has_torrentDone tid w).
  - destruct (List.find _ _) as [[j tid]|]; [|apply same_wiring_refl].
    apply same_wiring_on_tick.
  - repeat split. unfold wiring. simpl. by apply wiring_alter.
Qed.

(** ** Intervals are cleared by [done] only *)

(** A session start adds no interval and no socket listener, and at most
    one torrent, wired as the method wires it. *)
Lemma addTorrent_frame uri w :
  timers (addTorrent uri w) = timers w
  /\ socketListeners (addTorrent uri w) = socketListeners w
  /\ wiring (addTorrent uri w)
     = wiring w ++ (if clientDestroyed w then []
                    else [(Downloader, [OnMetadata; OnReady])]).
Proof.
  unfold addTorrent, addTorrent_result, wiring.
  destruct (clientDestroyed w); simpl; [by rewrite app_nil_r|].
  destruct (repeated uri w); simpl.
  - split; [done|]. split; [done|].
    rewrite wiring_alter by done. by rewrite map_app.
  - by rewrite map_app.
Qed.

Lemma sendFiles_frame names w :
  timers (sendFiles names w) = timers w
  /\ socketListeners (sendFiles names w) = socketListeners w
  /\ wiring (sendFiles names w)
     = wiring w ++ (if clientDestroyed w then [] else [(Seeder, [])]).
Proof.
  unfold sendFiles, sendFiles_result, wiring.
  destruct (clientDestroyed w); simpl; [by rewrite app_nil_r|].
  by rewrite map_app.
Qed.

Lemma on_ready_timers tid w : exists l, timers (on_ready tid w) = timers w ++ l.
Proof.
  destruct (sessions w !! tid) as [s|] eqn:Hs.
  - rewrite (on_ready_eval w tid s Hs). simpl. eauto.
  - unfold on_ready. rewrite Hs. exists []. by rewrite app_nil_r.
Qed.

Lemma iter_on_ready_timers tid n : forall w,
  exists l, timers (Nat.iter n (on_ready tid) w) = timers w ++ l.
Proof.
  induction n as [|n IH]; intros w; simpl.
  - exists []. by rewrite app_nil_r.
  - destruct (IH w) as [l1 H1].
    destruct (on_ready_timers tid (Nat.iter n (on_ready tid) w)) as [l2 H2].
    exists (l1 ++ l2). by rewrite H2, H1, app_assoc.
Qed.

Lemma fold_addTorrent_timers uri ls : forall w,
  timers (fold_left (fun w l => socket_listener (InAddTorrent uri) l w) ls w)
  = timers w.
Proof.
  induction ls as [|l ls IH]; intros w; [done|].
  cbn [fold_left]. rewrite IH. destruct l; cbn [socket_listener]; try done.
  apply addTorrent_frame.
Qed.

Lemma step_keeps_intervals (x : Stimulus) (w : World) :
  is_done_event x = false ->
  exists l, timers (step x w) = timers w ++ l.
Proof.
  intros Hx. destruct (quiet x) eqn:Hq.
  - destruct (step_same_wiring x w Hq) as (_ & -> & _).
    exists []. by rewrite app_nil_r.
  - destruct x as [names|sel|uri| |m|err|tid|tid|tid ev|tid i err url|tid|id|tid h];
      try discriminate Hq.
    + exists []. rewrite app_nil_r. apply sendFiles_frame.
    + exists []. rewrite app_nil_r. apply addTorrent_frame.
    + destruct m as [uri|info|uri]; try discriminate Hq.
      exists []. simpl. unfold socket_receive.
      by rewrite fold_addTorrent_timers, app_nil_r.
    + exists []. rewrite app_nil_r. simpl.
      destruct (sessions w !! tid) as [s|] eqn:Hs; simpl; [|done].
      destruct (role s); [|done]. unfold on_seed. by rewrite Hs.
    + destruct ev; try discriminate Hq; try discriminate Hx.
      simpl. unfold torrent_emit.
      destruct (sessions w !! tid) as [s|]; [|exists []; by rewrite app_nil_r].
      apply iter_on_ready_timers.
Qed.

(** Whatever happens to a client, as long as no torrent fires [done],
    every interval that was set stays set: errors, warnings, [destroy],
    socket messages and new sessions clear none; [ready] adds one. *)
Theorem intervals_cleared_by_done_only (xs : list Stimulus) (w : World) :
  forallb (fun x => negb (is_done_event x)) xs = true ->
  exists l, timers (run xs w) = timers w ++ l.
Proof.
  revert w. induction xs as [|x xs IH]; intros w Hxs; simpl.
  - exists []. by rewrite app_nil_r.
  - simpl in Hxs. apply andb_prop in Hxs as [Hx Hxs].
    apply negb_true_iff in Hx.
    destruct (step_keeps_intervals x w Hx) as [l1 H1].
    destruct (IH (step x w) Hxs) as [l2 H2].
    exists (l1 ++ l2). by rewrite H2, H1, app_assoc.
Qed.

Lemma intervals_cleared_by_done_only_witness :
  exists l,
    timers (run [TorrentEmits 0 (error connection_lost); CallDestroy;
                 ClientError connection_lost;
                 Socket (InAddTorrent "magnet:?xt=urn:btih:decaf")]
                world_two_files)
    = timers world_two_files ++ l.
Proof.
  refine (intervals_cleared_by_done_only
            [TorrentEmits 0 (error connection_lost); CallDestroy;
             ClientError connection_lost;
             Socket (InAddTorrent "magnet:?xt=urn:btih:decaf")]
            world_two_files _).
  reflexivity.
Defined.

(** ** What holds in every state a client can reach *)

Lemma wiring_lookup w tid s :
  sessions w !! tid = Some s -> wiring w !! tid = Some (role s, listeners s).
Proof.
  intros Hs. unfold wiring.
  change (map (fun s0 => (role s0, listeners s0)) (sessions w))
    with ((fun s0 => (role s0, listeners s0)) <$> sessions w).
  by rewrite list_lookup_fmap, Hs.
Qed.

Lemma well_attached_lookup w tid s :
  well_attached w -> sessions w !! tid = Some s ->
  forallb (may_carry (role s)) (listeners s) = true.
Proof.
  intros Hw Hs. apply wiring_lookup in Hs.
  exact (Forall_lookup_1 _ _ _ _ Hw Hs).
Qed.

Lemma listenerCount_pos n s : 0 < listenerCount n s -> In n (listeners s).
Proof.
  unfold listenerCount. intros H.
  destruct (filter (fun m => m = n) (listeners s)) as [|m l] eqn:E; [simpl in H; lia|].
  assert (Hm : m ∈ filter (fun m => m = n) (listeners s)) by (rewrite E; left).
  apply list_elem_of_filter in Hm as [-> Hm]. by apply list_elem_of_In.
Qed.

Lemma well_attached_carries w tid s n :
  well_attached w -> sessions w !! tid = Some s ->
  0 < listenerCount n s -> may_carry (role s) n = true.
Proof.
  intros Hw Hs Hn. pose proof (well_attached_lookup w tid s Hw Hs) as Hall.
  rewrite forallb_forall in Hall. apply Hall. by apply listenerCount_pos.
Qed.

Lemma same_wiring_well_attached w w' :
  same_wiring w w' -> well_attached w -> well_attached w'.
Proof. intros (_ & _ & H). unfold well_attached. by rewrite H. Qed.

Lemma wiring_alter_add (f : Session -> Session) n tid ss :
  (forall s, role (f s) = role s /\ listeners (f s) = listeners s ++ [n]) ->
  map (fun s => (role s, listeners s)) (alter f tid ss)
  = alter (wire n) tid (map (fun s => (role s, listeners s)) ss).
Proof.
  intros Hf. revert tid. induction ss as [|s ss IH]; intros [|tid]; simpl; try done.
  - destruct (Hf s) as [-> ->]. done.
  - f_equal. apply IH.
Qed.

Lemma well_attached_wire n tid w w' s :
  sessions w !! tid = Some s -> may_carry (role s) n = true ->
  well_attached w -> wiring w' = alter (wire n) tid (wiring w) ->
  well_attached w'.
Proof.
  intros Hs Hn Hw Hw'. unfold well_attached. rewrite Hw'.
  apply Forall_alter; [exact Hw|].
  intros rl Hrl Hok.
  rewrite (wiring_lookup w tid s Hs) in Hrl. injection Hrl as <-.
  simpl in *. rewrite forallb_app, Hok. simpl. by rewrite Hn.
Qed.

Lemma well_attached_add_listener n tid w s :
  sessions w !! tid = Some s -> may_carry (role s) n = true ->
  well_attached w -> well_attached (with_session tid (add_listener n) w).
Proof.
  intros Hs Hn Hw. apply (well_attached_wire n tid w _ s Hs Hn Hw).
  unfold wiring. simpl. by apply wiring_alter_add.
Qed.

Lemma on_done_wiring tid w :
  socketListeners (on_done tid w) = socketListeners w
  /\ wiring (on_done tid w) = wiring w.
Proof.
  destruct (sessions w !! tid) as [s|] eqn:Hs.
  - rewrite (on_done_eval w tid s Hs). simpl. split; [done|].
    unfold wiring. simpl. by apply wiring_alter.
  - unfold on_done. by rewrite Hs.
Qed.

Lemma iter_on_done_wiring tid n : forall w,
  socketListeners (Nat.iter n (on_done tid) w) = socketListeners w
  /\ wiring (Nat.iter n (on_done tid) w) = wiring w.
Proof.
  induction n as [|n IH]; intros w; simpl; [done|].
  destruct (on_done_wiring tid (Nat.iter n (on_done tid) w)) as [-> ->].
  apply IH.
Qed.

Lemma on_ready_attached tid w :
  well_attached w ->
  (forall s, sessions w !! tid = Some s -> role s = Downloader) ->
  well_attached (on_ready tid w)
  /\ (forall s, sessions (on_ready tid w) !! tid = Some s -> role s = Downloader)
  /\ socketListeners (on_ready tid w) = socketListeners w.
Proof.
  intros Hw Hrole. destruct (sessions w !! tid) as [s|] eqn:Hs.
  - rewrite (on_ready_eval w tid s Hs). split; [|split; [|done]].
    + apply (well_attached_wire OnDone tid w _ s Hs); [|exact Hw|].
      * by rewrite (Hrole s eq_refl).
      * unfold wiring. simpl. by apply wiring_alter_add.
    + simpl. intros s'. rewrite list_lookup_alter_eq, Hs. simpl.
      intros [= <-]. simpl. by apply Hrole.
  - unfold on_ready. rewrite Hs. split; [done|]. split; [|done].
    intros s. by rewrite Hs.
Qed.

Lemma iter_on_ready_attached tid n : forall w,
  well_attached w ->
  (forall s, sessions w !! tid = Some s -> role s = Downloader) ->
  well_attached (Nat.iter n (on_ready tid) w)
  /\ (forall s, sessions (Nat.iter n (on_ready tid) w) !! tid = Some s ->
                 role s = Downloader)
  /\ socketListeners (Nat.iter n (on_ready tid) w) = socketListeners w.
Proof.
  induction n as [|n IH]; intros w Hw Hrole; simpl; [done|].
  destruct (IH w Hw Hrole) as (H1 & H2 & H3).
  destruct (on_ready_attached tid _ H1 H2) as (H4 & H5 & H6).
  split; [done|]. split; [done|]. by rewrite H6.
Qed.

Lemma well_attached_addTorrent uri w :
  well_attached w -> well_attached (addTorrent uri w).
Proof.
  intros Hw. unfold well_attached.
  destruct (addTorrent_frame uri w) as (_ & _ & ->).
  apply Forall_app. split; [done|].
  destruct (clientDestroyed w); by repeat constructor.
Qed.

Lemma well_attached_sendFiles names w :
  well_attached w -> well_attached (sendFiles names w).
Proof.
  intros Hw. unfold well_attached.
  destruct (sendFiles_frame names w) as (_ & _ & ->).
  apply Forall_app. split; [done|].
  destruct (clientDestroyed w); by repeat constructor.
Qed.

Lemma fold_addTorrent_attached uri ls : forall w,
  well_attached w ->
  well_attached (fold_left (fun w l => socket_listener (InAddTorrent uri) l w) ls w)
  /\ socketListeners (fold_left (fun w l => socket_listener (InAddTorrent uri) l w) ls w)
     = socketListeners w.
Proof.
  induction ls as [|l ls IH]; intros w Hw; [done|].
  cbn [fold_left]. destruct l; cbn [socket_listener]; try by apply IH.
  destruct (IH (addTorrent uri w)) as [H1 H2].
  - by apply well_attached_addTorrent.
  - split; [exact H1|]. etransitivity; [exact H2|apply addTorrent_frame].
Qed.

Lemma step_well_attached x w : well_attached w -> well_attached (step x w).
Proof.
  intros Hw. destruct (quiet x) eqn:Hq.
  - by eapply same_wiring_well_attached; [apply step_same_wiring|].
  - destruct x as [names|sel|uri| |m|err|tid|tid|tid ev|tid i err url|tid|id|tid h];
      try discriminate Hq.
    + by apply well_attached_sendFiles.
    + by apply well_attached_addTorrent.
    + destruct m as [uri|info|uri]; try discriminate Hq.
      simpl. unfold socket_receive. by apply fold_addTorrent_attached.
    + simpl. destruct (sessions w !! tid) as [s|] eqn:Hs; simpl; [|done].
      destruct (role s) eqn:Hr; [|done]. unfold on_seed. rewrite Hs.
      change (well_attached
                (with_session tid (add_listener OnUpload)
                   (with_session tid (add_listener OnWarning)
                      (with_session tid (add_listener OnError) w)))).
      eapply well_attached_add_listener;
        [simpl; by rewrite !list_lookup_alter_eq, Hs|simpl; by rewrite Hr|].
      eapply well_attached_add_listener;
        [simpl; by rewrite !list_lookup_alter_eq, Hs|simpl; by rewrite Hr|].
      eapply well_attached_add_listener; [exact Hs|by rewrite Hr|exact Hw].
    + destruct ev; try discriminate Hq; unfold step, torrent_emit.
      * destruct (sessions w !! tid) as [s|] eqn:Hs; [|exact Hw].
        change (event_name ready) with OnReady.
        destruct (listenerCount OnReady s) as [|n] eqn:Hn; [exact Hw|].
        apply iter_on_ready_attached; [done|].
        intros s'. rewrite Hs. intros [= <-].
        assert (Hc : may_carry (role s) OnReady = true).
        { apply (well_attached_carries w tid s OnReady Hw Hs). lia. }
        by destruct (role s).
      * destruct (sessions w !! tid) as [s|] eqn:Hs; [|exact Hw]. simpl.
        destruct (Torrent.complete (torrent s)); [|exact Hw].
        unfold well_attached.
        by destruct (iter_on_done_wiring tid (listenerCount OnDone s) w) as [_ ->].
Qed.

Lemma reachable_well_attached w : reachable w -> well_attached w.
Proof.
  intros [xs ->]. unfold run.
  assert (H : forall w0, well_attached w0 ->
                well_attached (fold_left (fun w x => step x w) xs w0)).
  { induction xs as [|x xs IH]; intros w0 Hw0; simpl; [done|].
    apply IH. by apply step_well_attached. }
  apply H. constructor.
Qed.

(** In every state a client can reach, a torrent made by [addTorrent]
    has no [error] listener (nor a [warning] or [upload] listener): only
    the [seed] callback calls [setTorrentErrorHandlers].  So a fatal
    [error] of a downloading torrent comes to the constructor's listener
    on the client: the observer gets [error] and [clientDestroyed], once
    each, and never [torrentDestroyed]; no interval is cleared. *)
Theorem download_errors_reach_the_client_listener (w : World) tid s err :
  reachable w ->
  sessions w !! tid = Some s ->
  role s = Downloader ->
  listenerCount OnError s = 0
  /\ listenerCount OnWarning s = 0
  /\ listenerCount OnUpload s = 0
  /\ since w (step (TorrentEmits tid (error err)) w)
     = [Debug (DbgClientError err); Emit (Event.error err);
        Emit Event.clientDestroyed]
  /\ timers (step (TorrentEmits tid (error err)) w) = timers w.
Proof.
  intros Hr Hs Hrole. pose proof (reachable_well_attached w Hr) as Hw.
  assert (Hnone : forall n, may_carry Downloader n = false -> listenerCount n s = 0).
  { intros n Hn. destruct (listenerCount n s) as [|k] eqn:Hk; [done|].
    assert (Hc : may_carry (role s) n = true).
    { apply (well_attached_carries w tid s n Hw Hs). lia. }
    rewrite Hrole in Hc. congruence. }
  split; [by apply Hnone|]. split; [by apply Hnone|]. split; [by apply Hnone|].
  destruct (error_unhandled w tid s err Hs (Hnone OnError eq_refl)) as [Hstep Hsince].
  split; [exact Hsince|]. by rewrite Hstep.
Qed.

Lemma download_errors_reach_the_client_listener_witness :
  reachable world_two_files
  /\ sessions world_two_files !! 0 = Some session_two_files
  /\ since world_two_files
        (step (TorrentEmits 0 (error connection_lost)) world_two_files)
     = [Debug (DbgClientError connection_lost); Emit (Event.error connection_lost);
        Emit Event.clientDestroyed].
Proof.
  assert (Hr : reachable world_two_files) by (eexists; reflexivity).
  split; [exact Hr|]. split; [vm_compute; reflexivity|].
  destruct (download_errors_reach_the_client_listener
              world_two_files 0 session_two_files connection_lost Hr)
    as (_ & _ & _ & H & _); [vm_compute; reflexivity | reflexivity | exact H].
Defined.

Lemma listenerCount_add n m s :
  listenerCount n (add_listener m s)
  = listenerCount n s + (if decide (m = n) then 1 else 0).
Proof.
  unfold listenerCount. simpl. rewrite filter_app, length_app. f_equal.
  rewrite filter_cons, filter_nil. by case_decide.
Qed.

(** A torrent made by [sendFiles] whose [seed] callback runs for the
    first time gets one [error] listener: a fatal [error] of the torrent
    then writes one debug line and emits [error], with the error received,
    and [torrentDestroyed], once each and in this order. *)
Theorem seeding_error_reported_once (w : World) tid s err :
  sessions w !! tid = Some s ->
  role s = Seeder ->
  listenerCount OnError s = 0 ->
  let w1 := step (SeedCallback tid) w in
  since w1 (step (TorrentEmits tid (error err)) w1)
  = [Debug (DbgTorrentError err); Emit (Event.error err); Emit Event.torrentDestroyed].
Proof.
  intros Hs Hrole Hzero w1.
  assert (Hw1 : w1 = on_seed tid w).
  { unfold w1. simpl. rewrite Hs. simpl. by rewrite Hrole. }
  pose proof (on_seed_session w tid s Hs) as Hs1. rewrite <- Hw1 in Hs1.
  assert (Hn : listenerCount OnError
                 (add_listener OnUpload (add_listener OnWarning (add_listener OnError s)))
               = 1).
  { rewrite !listenerCount_add, Hzero. reflexivity. }
  destruct (error_dispatch w1 tid _ err Hs1) as [-> _]; [lia|].
  rewrite Hn. reflexivity.
Qed.

Lemma seeding_error_reported_once_witness :
  sessions world_seed_pending !! 0 = Some session_seed_pending
  /\ since world_seed_running
       (step (TorrentEmits 0 (error connection_lost)) world_seed_running)
     = [Debug (DbgTorrentError connection_lost); Emit (Event.error connection_lost);
        Emit Event.torrentDestroyed].
Proof.
  split; [vm_compute; reflexivity|].
  refine (seeding_error_reported_once
            world_seed_pending 0 session_seed_pending connection_lost _ _ _);
    vm_compute; reflexivity.
Defined.

Lemma on_ready_socketListeners tid w :
  socketListeners (on_ready tid w) = socketListeners w.
Proof.
  destruct (sessions w !! tid) as [s|] eqn:Hs.
  - by rewrite (on_ready_eval w tid s Hs).
  - unfold on_ready. by rewrite Hs.
Qed.

Lemma iter_socketListeners (f : World -> World) :
  (forall w, socketListeners (f w) = socketListeners w) ->
  forall n w, socketListeners (Nat.iter n f w) = socketListeners w.
Proof.
  intros Hf n. induction n as [|n IH]; intros w; simpl; [done|].
  by rewrite Hf, IH.
Qed.

Lemma fold_addTorrent_socketListeners uri ls : forall w,
  socketListeners (fold_left (fun w l => socket_listener (InAddTorrent uri) l w) ls w)
  = socketListeners w.
Proof.
  induction ls as [|l ls IH]; intros w; [done|].
  cbn [fold_left]. rewrite IH. destruct l; cbn [socket_listener]; try done.
  apply addTorrent_frame.
Qed.

Lemma step_socketListeners x w :
  exists l, socketListeners (step x w) = socketListeners w ++ l
            /\ List.filter is_addTorrent l = [].
Proof.
  destruct (quiet x) eqn:Hq.
  - destruct (step_same_wiring x w Hq) as (-> & _ & _).
    exists []. by rewrite app_nil_r.
  - destruct x as [names|sel|uri| |m|err|tid|tid|tid ev|tid i err url|tid|id|tid h];
      try discriminate Hq.
    + exists []. rewrite app_nil_r. split; [apply sendFiles_frame|done].
    + exists []. rewrite app_nil_r. split; [apply addTorrent_frame|done].
    + destruct m as [uri|info|uri]; try discriminate Hq.
      exists []. simpl. unfold socket_receive.
      by rewrite fold_addTorrent_socketListeners, app_nil_r.
    + simpl. destruct (sessions w !! tid) as [s|] eqn:Hs; simpl;
        [|exists []; by rewrite app_nil_r].
      destruct (role s); [|exists []; by rewrite app_nil_r].
      unfold on_seed. rewrite Hs. simpl.
      exists [SockProgressUpdate; SockTorrentDone tid]. by rewrite <- app_assoc.
    + exists []. rewrite app_nil_r. split; [|done].
      destruct ev; try discriminate Hq; unfold step, torrent_emit.
      * destruct (sessions w !! tid) as [s|]; [|done].
        apply iter_socketListeners, on_ready_socketListeners.
      * destruct (sessions w !! tid) as [s|]; [|done]. simpl.
        destruct (Torrent.complete (torrent s)); [|done].
        apply iter_on_done_wiring.
Qed.

Lemma reachable_one_addTorrent_listener w :
  reachable w -> one_addTorrent_listener w.
Proof.
  intros [xs ->]. unfold run.
  assert (H : forall w0, one_addTorrent_listener w0 ->
                one_addTorrent_listener (fold_left (fun w x => step x w) xs w0)).
  { induction xs as [|x xs IH]; intros w0 Hw0; simpl; [done|].
    apply IH. destruct Hw0 as (ls & Hls & Hnone).
    destruct (step_socketListeners x w0) as (l & Hl & Hl').
    exists (ls ++ l). rewrite Hl, Hls. split; [done|].
    by rewrite List.filter_app, Hnone, Hl'. }
  apply H. by exists [].
Qed.

Lemma fold_addTorrent_others uri ls : forall w,
  List.filter is_addTorrent ls = [] ->
  fold_left (fun w l => socket_listener (InAddTorrent uri) l w) ls w = w.
Proof.
  induction ls as [|l ls IH]; intros w Hls; simpl; [done|].
  destruct l; simpl in *; try discriminate Hls; by apply IH.
Qed.

(** In every state a client can reach, the socket carries exactly one
    [addTorrent] listener, the constructor's: an [addTorrent] message does
    what one call of [addTorrent] with the same magnet URI does, however
    many sessions were started before. *)
Theorem addTorrent_message_is_one_call (w : World) (uri : string) :
  reachable w ->
  step (Socket (InAddTorrent uri)) w = addTorrent uri w.
Proof.
  intros Hr. destruct (reachable_one_addTorrent_listener w Hr) as (ls & Hls & Hnone).
  simpl. unfold socket_receive. rewrite Hls. simpl.
  by apply fold_addTorrent_others.
Qed.

Lemma addTorrent_message_is_one_call_witness :
  step (Socket (InAddTorrent "magnet:?xt=urn:btih:decaf")) world_seed_running
  = addTorrent "magnet:?xt=urn:btih:decaf" world_seed_running.
Proof.
  apply (addTorrent_message_is_one_call world_seed_running).
  exists [CallSendFiles ["a.txt"]; Swarm 0 seed_handle; SeedCallback 0].
  reflexivity.
Defined.

(** ** More on [selectFiles] *)

Lemma emitted_directives tid (sel : list bool) :
  emitted (imap (directive_for tid) sel) = [].
Proof.
  unfold emitted. apply list_eq. intros k.
  destruct (omap _ _ !! k) as [e|] eqn:E; [|done].
  apply list_elem_of_lookup_2, list_elem_of_omap in E as (o & Ho & He).
  apply list_elem_of_lookup in Ho as [j Hj].
  rewrite list_lookup_imap in Hj. destruct (sel !! j); [|done].
  simpl in Hj. injection Hj as <-. done.
Qed.

Lemma apply_selection_names sel fs :
  map File.name (apply_selection sel fs) = map File.name fs
  /\ map File.progress (apply_selection sel fs) = map File.progress fs.
Proof.
  unfold apply_selection. split; apply list_eq; intros k;
    rewrite !list_lookup_fmap, list_lookup_imap; by destruct (fs !! k).
Qed.

(** A [selectFiles] that returns touches nothing but download intents,
    and those of the first torrent only: every torrent keeps its kind, its
    listeners, its closure and the names and progress of its files; every
    torrent but [client.torrents[0]] keeps its files as they are; the
    file names, timers and socket listeners are unchanged and nothing is
    emitted to the observer. *)
Theorem selectFiles_touches_only_intents (sel : list bool) (w w' : World) :
  selectFiles sel w = Ok w' ->
  same_wiring w w'
  /\ fileNames w' = fileNames w
  /\ emitted (since w w') = []
  /\ forall j s, sessions w !! j = Some s ->
       exists fs,
         sessions w' !! j = Some (set_torrent (Torrent.set_files fs (torrent s)) s)
         /\ map File.name fs = map File.name (Torrent.files (torrent s))
         /\ map File.progress fs = map File.progress (Torrent.files (torrent s))
         /\ (head (client_torrents w) <> Some (j, s) ->
             fs = Torrent.files (torrent s)).
Proof.
  intros Hsel. split; [by eapply same_wiring_selectFiles|].
  assert (Hid : forall s, set_torrent (Torrent.set_files (Torrent.files (torrent s))
                                         (torrent s)) s = s)
    by (intros [[] ? ? ? ? ? ?]; reflexivity).
  destruct (client_torrents w) as [|[tid s0] rest] eqn:Hc.
  { unfold selectFiles in Hsel. by rewrite Hc in Hsel. }
  destruct (decide (length sel = length (Torrent.files (torrent s0)))) as [Hlen|Hlen].
  - rewrite (selectFiles_valid sel w tid s0 rest Hc Hlen) in Hsel.
    injection Hsel as <-. simpl. split; [done|]. split.
    + unfold since. simpl. rewrite drop_app_length.
      change (emitted ([Calls (TorrentDeselect tid 0
                          (Z.of_nat (Torrent.pieces (torrent s0)) - 1) 0)]
                       ++ imap (directive_for tid) sel
                       ++ [Debug DbgImplementedSelection]) = []).
      unfold emitted. rewrite !omap_app. fold (emitted (imap (directive_for tid) sel)).
      by rewrite emitted_directives.
    + intros j s Hs. pose proof (client_torrents_head w tid s0 rest Hc) as [Hs0 _].
      destruct (decide (j = tid)) as [->|Hj].
      * rewrite Hs0 in Hs. injection Hs as <-.
        exists (apply_selection sel (Torrent.files (torrent s0))).
        split; [apply list_lookup_insert_eq; by eapply lookup_lt_Some|].
        destruct (apply_selection_names sel (Torrent.files (torrent s0))) as [-> ->].
        split; [done|]. split; [done|]. simpl. intros H. by destruct H.
      * exists (Torrent.files (torrent s)).
        rewrite list_lookup_insert_ne by done. by rewrite Hid, Hs.
  - unfold selectFiles in Hsel. rewrite Hc in Hsel.
    apply Nat.eqb_neq in Hlen. rewrite Hlen in Hsel. simpl in Hsel.
    injection Hsel as <-. simpl. split; [done|]. split.
    + unfold since. simpl. by rewrite <- app_assoc, drop_app_length.
    + intros j s Hs. exists (Torrent.files (torrent s)). by rewrite Hid, Hs.
Qed.

Lemma selectFiles_touches_only_intents_witness :
  exists fs,
    sessions (selected_world [false; true] 0 session_added world_two_live) !! 1
    = Some (set_torrent (Torrent.set_files fs (torrent session_decaf)) session_decaf)
    /\ map File.name fs = map File.name (Torrent.files (torrent session_decaf))
    /\ map File.progress fs = map File.progress (Torrent.files (torrent session_decaf))
    /\ (head (client_torrents world_two_live) <> Some (1, session_decaf) ->
        fs = Torrent.files (torrent session_decaf)).
Proof.
  refine (proj2 (proj2 (proj2 (selectFiles_touches_only_intents
                   [false; true] world_two_live
                   (selected_world [false; true] 0 session_added world_two_live) _)))
                1 session_decaf _);
    vm_compute; reflexivity.
Defined.

(** Before the metadata is in, the torrent has no files and no pieces:
    the only vector [selectFiles] accepts is the empty one, and for it the
    whole-range deselect is [torrent.deselect(0, -1, 0)], followed by no
    [select()] or [deselect()] at all. *)
Theorem selectFiles_before_metadata (sel : list bool) (w : World) tid s rest :
  client_torrents w = (tid, s) :: rest ->
  Torrent.files (torrent s) = [] ->
  Torrent.pieces (torrent s) = 0 ->
  exists w',
    selectFiles sel w = Ok w'
    /\ since w w'
       = match sel with
         | [] => [Calls (TorrentDeselect tid 0 (-1) 0); Debug DbgImplementedSelection]
         | _ :: _ => [Debug (DbgGotLength (length sel) 0); Debug DbgIgnoredSelection]
         end.
Proof.
  intros Hc Hfiles Hpieces. destruct sel as [|b sel].
  - exists (selected_world [] tid s w).
    rewrite (selectFiles_valid [] w tid s rest Hc) by (by rewrite Hfiles).
    split; [done|]. apply since_app. simpl. by rewrite Hpieces.
  - unfold selectFiles. rewrite Hc, Hfiles. simpl. eexists. split; [done|].
    apply since_app. simpl. by rewrite <- app_assoc.
Qed.

Lemma selectFiles_before_metadata_witness :
  client_torrents world_no_metadata = [(0, session_no_metadata)]
  /\ exists w',
       selectFiles [] world_no_metadata = Ok w'
       /\ since world_no_metadata w'
          = [Calls (TorrentDeselect 0 0 (-1) 0); Debug DbgImplementedSelection].
Proof.
  split; [vm_compute; reflexivity|].
  refine (selectFiles_before_metadata
            [] world_no_metadata 0 session_no_metadata [] _ _ _);
    vm_compute; reflexivity.
Defined.

(** ** Teardown *)

Lemma fold_torrentDone_trace uri ls : forall w,
  trace (fold_left (fun w l => socket_listener (InTorrentDone uri) l w) ls w)
  = trace w ++ map (fun tid => Calls (TorrentDestroy tid)) (torrentDone_targets ls).
Proof.
  induction ls as [|l ls IH]; intros w; simpl; [by rewrite app_nil_r|].
  rewrite IH. destruct l; simpl; try done. by rewrite <- app_assoc.
Qed.

Lemma fold_torrentDone_uri uri uri' ls : forall w,
  fold_left (fun w l => socket_listener (InTorrentDone uri) l w) ls w
  = fold_left (fun w l => socket_listener (InTorrentDone uri') l w) ls w.
Proof.
  induction ls as [|l ls IH]; intros w; simpl; [done|].
  rewrite IH. by destruct l.
Qed.

(** A [torrentDone] message makes every [torrentDone] listener on the
    socket call [torrent.destroy] on the torrent of the [seed] callback
    that registered it, in the order of registration: the magnet URI in the
    message is not looked at, so the message ends every torrent being
    seeded.  Nothing is emitted yet ([torrentDestroyed] waits for the
    library's callback), and no listener or interval goes away. *)
Theorem torrentDone_destroys_every_seeded_torrent (w : World) (uri : string) :
  let w' := step (Socket (InTorrentDone uri)) w in
  since w w' = map (fun tid => Calls (TorrentDestroy tid))
                   (torrentDone_targets (socketListeners w))
  /\ (forall uri', step (Socket (InTorrentDone uri')) w = w')
  /\ same_wiring w w'.
Proof.
  simpl. unfold socket_receive. split; [|split].
  - apply since_app, fold_torrentDone_trace.
  - intros uri'. apply fold_torrentDone_uri.
  - apply same_wiring_fold. intros u H. discriminate H.
Qed.

Lemma iter_destroy_trace n : forall w,
  trace (Nat.iter n destroy w) = trace w ++ replicate n (Calls ClientDestroy).
Proof.
  induction n as [|n IH]; intros w; simpl; [by rewrite app_nil_r|].
  rewrite IH, <- app_assoc. f_equal.
  clear IH. induction n as [|n IH]; simpl; [done|]. by f_equal.
Qed.

(** However often [destroy] is called, each call passes
    [client.destroy()] to the library and that is all the client does: no
    event is emitted, no interval is cleared, no listener is removed. *)
Theorem destroy_only_calls_the_library (n : nat) (w : World) :
  let w' := Nat.iter n destroy w in
  since w w' = replicate n (Calls ClientDestroy)
  /\ emitted (since w w') = []
  /\ same_wiring w w'
  /\ fileNames w' = fileNames w.
Proof.
  simpl.
  assert (Hs : since w (Nat.iter n destroy w) = replicate n (Calls ClientDestroy))
    by apply since_app, iter_destroy_trace.
  split; [done|]. rewrite Hs. split.
  - clear Hs. induction n as [|n IH]; simpl; [done|]. exact IH.
  - clear Hs. induction n as [|n IH]; simpl; [by split; [apply same_wiring_refl|]|].
    destruct IH as [IH1 IH2]. split; [|done].
    eapply same_wiring_trans; [exact IH1|].
    apply (same_wiring_mark_all_destroyed (call ClientDestroy _)).
Qed.

Lemma fold_torrentDone_none uri ls : forall w,
  torrentDone_targets ls = [] ->
  fold_left (fun w l => socket_listener (InTorrentDone uri) l w) ls w = w.
Proof.
  induction ls as [|l ls IH]; intros w Hls; simpl; [done|].
  destruct l; simpl in *; try discriminate Hls; by apply IH.
Qed.

(** The sender's teardown, from the first [seed] callback on: the
    callback announces the torrent, a [torrentDone] message makes the
    client call [torrent.destroy] once, and when the library reports the
    torrent destroyed the client emits [torrentDestroyed], once. *)
Theorem sender_teardown_emits_torrentDestroyed_once (w : World) tid s uri :
  sessions w !! tid = Some s ->
  role s = Seeder ->
  torrentDone_targets (socketListeners w) = [] ->
  since w (run [SeedCallback tid; Socket (InTorrentDone uri); DestroyCallback tid] w)
  = [Emit Event.seeding;
     SocketEmit (Msg.fileReady (Torrent.magnetURI (torrent s)));
     Calls (TorrentDestroy tid);
     Debug DbgTorrentDone;
     Emit Event.torrentDestroyed].
Proof.
  intros Hs Hrole Hnone.
  change (run [SeedCallback tid; Socket (InTorrentDone uri); DestroyCallback tid] w)
    with (step (DestroyCallback tid)
            (step (Socket (InTorrentDone uri)) (step (SeedCallback tid) w))).
  assert (H1 : step (SeedCallback tid) w = on_seed tid w).
  { simpl. by rewrite Hs; simpl; rewrite Hrole. }
  rewrite H1. unfold on_seed. rewrite Hs.
  set (w1 := add_socketListener _ _).
  assert (H2 : step (Socket (InTorrentDone uri)) w1 = on_torrentDone tid w1).
  { simpl. unfold socket_receive.
    assert (Hl : socketListeners w1
                 = socketListeners w ++ [SockProgressUpdate; SockTorrentDone tid]).
    { subst w1. simpl. by rewrite <- app_assoc. }
    rewrite Hl, fold_left_app.
    by rewrite (fold_torrentDone_none uri (socketListeners w) w1 Hnone). }
  rewrite H2.
  set (w2 := on_torrentDone tid w1).
  assert (H3 : step (DestroyCallback tid) w2 = on_torrent_destroyed w2).
  { unfold step.
    assert (Hd : destroyed <$> sessions w2 !! tid = Some true).
    { subst w2 w1. simpl. by rewrite !list_lookup_alter_eq, Hs. }
    rewrite Hd.
    assert (Ht : has_torrentDone tid w2 = true).
    { subst w2 w1. unfold has_torrentDone. simpl.
      rewrite <- app_assoc, existsb_app. simpl.
      by rewrite Nat.eqb_refl, orb_true_r. }
    by rewrite Ht. }
  rewrite H3. apply since_app. subst w2 w1. simpl.
  by rewrite <- !app_assoc.
Qed.

Lemma sender_teardown_emits_torrentDestroyed_once_witness :
  sessions world_seed_pending !! 0 = Some session_seed_pending
  /\ since world_seed_pending
       (run [SeedCallback 0; Socket (InTorrentDone "magnet:?xt=urn:btih:5eed");
             DestroyCallback 0] world_seed_pending)
     = [Emit Event.seeding;
        SocketEmit (Msg.fileReady "magnet:?xt=urn:btih:5eed");
        Calls (TorrentDestroy 0);
        Debug DbgTorrentDone;
        Emit Event.torrentDestroyed].
Proof.
  split; [vm_compute; reflexivity|].
  refine (sender_teardown_emits_torrentDestroyed_once
            world_seed_pending 0 session_seed_pending
            "magnet:?xt=urn:btih:5eed" _ _ _);
    vm_compute; reflexivity.
Defined.

(** ** Edge cases of the sampler and of the configuration *)

(** When an interval ticks before anything has filled the closure's
    [progressFiles] (no [metadata] event, no earlier sample), the outbound
    [progressUpdate] carries [progressFiles] [undefined], while the
    [download] event of the same tick carries one fraction per file:
    [onDownload] fills the array in, [sendProgress] does not. *)
Theorem first_tick_without_metadata (w : World) id tid s :
  List.find (fun t => fst t =? id) (timers w) = Some (id, tid) ->
  sessions w !! tid = Some s ->
  progressFiles s = None ->
  since w (step (Tick id) w)
  = [SocketEmit (Msg.progressUpdate
                   (Info.mkUpdate (Torrent.progress (torrent s)) None
                                  (Torrent.timeRemaining (torrent s))));
     Emit (Event.download
             (Info.mkDownload (FormatBytesPerS (Torrent.downloadSpeed (torrent s)))
                              (FormatBytes (Torrent.downloaded (torrent s)))
                              (Torrent.progress (torrent s))
                              (map File.progress (Torrent.files (torrent s)))
                              (Torrent.timeRemaining (torrent s))))].
Proof.
  intros Hf Hs Hnone. simpl. rewrite Hf, (on_tick_eval w tid s Hs).
  apply since_app. simpl. unfold update_of, download_of, fresh_sample, previous_sample.
  rewrite Hnone, store_progress_spec, drop_ge by (by rewrite length_replicate).
  by rewrite app_nil_r.
Qed.

Lemma first_tick_without_metadata_witness :
  sessions world_ready_without_metadata !! 0 = Some session_ready_without_metadata
  /\ since world_ready_without_metadata (step (Tick 0) world_ready_without_metadata)
     = [SocketEmit (Msg.progressUpdate (Info.mkUpdate (1 # 2)%Q None (Some 0%Q)));
        Emit (Event.download
                (Info.mkDownload (FormatBytesPerS 0%Q) (FormatBytes (2048 # 1)%Q)
                                 (1 # 2)%Q [1%Q; 0%Q] (Some 0%Q)))].
Proof.
  split; [vm_compute; reflexivity|].
  refine (first_tick_without_metadata
            world_ready_without_metadata 0 0 session_ready_without_metadata _ _ _);
    vm_compute; reflexivity.
Defined.

(** The constructor always ends up with a STUN address of scheme [stun:]
    and a tracker address of scheme [ws://] or [wss://]; a variable that is
    set but empty is treated like one that is not set, and gives the
    third-party defaults; and there is exactly one tracker to announce to. *)
Theorem constructor_server_addresses (stun tracker : option string) :
  String.prefix "stun:" (STUN_URL stun) = true
  /\ (String.prefix "ws://" (TRACKER_URL tracker) = true
      \/ String.prefix "wss://" (TRACKER_URL tracker) = true)
  /\ STUN_URL (Some "") = "stun:stun.l.google.com:19302"
  /\ STUN_URL None = "stun:stun.l.google.com:19302"
  /\ TRACKER_URL (Some "") = "wss://tracker.btorrent.xyz"
  /\ TRACKER_URL None = "wss://tracker.btorrent.xyz"
  /\ length (TRACKER_URLS tracker) = 1.
Proof.
  split; [|split; [|done]].
  - destruct stun as [v|]; [|reflexivity]. unfold STUN_URL.
    destruct (env_set (Some v)); [|reflexivity]. simpl. by destruct v.
  - destruct tracker as [v|]; [|by right]. unfold TRACKER_URL.
    destruct (env_set (Some v)); [|by right]. left. simpl. by destruct v.
Qed.
